(** * Chronix: significant-location detection, daily store and timeline merge

    A shallow embedding of the location core of the Chronix app
    (LocationService.ts, the background task of index.ts, the merge of
    LocationHistoryModal.tsx and the timeline save of FeedScreen.tsx),
    with the properties its specification states about it.

    Conventions of the embedding.
    - A JavaScript [number] holding a coordinate or a distance is a real
      number ([R]): rounding of IEEE doubles is left out.
    - A JavaScript [number] holding [Date.now()] is an integer number of
      milliseconds ([Z]).
    - A JavaScript string is a [string] of bytes; case folding and white
      space are those of the ASCII range.
    - [null] and [undefined] are [None].
    - AsyncStorage and the SQLite table are reliable stores: reads and
      writes do not fail. *)

From Stdlib Require Import Reals Lra ZArith Lia Bool List Ascii String.
From stdpp Require Import base option list gmap strings.

Local Open Scope string_scope.
Local Open Scope Z_scope.

(** ** JavaScript string primitives *)

Module JsString.

(** [!s] for a string: the empty string is falsy. *)
Definition falsy (s : string) : bool :=
  match s with
  | EmptyString => true
  | String _ _ => false
  end.

(** [a || b] on strings. *)
Definition or_else (a b : string) : string :=
  if falsy a then b else a.

Definition lowerChar (c : ascii) : ascii :=
  let n := nat_of_ascii c in
  if ((65 <=? n)%nat && (n <=? 90)%nat)%bool then ascii_of_nat (n + 32) else c.

(** [s.toLowerCase()]. *)
Fixpoint toLowerCase (s : string) : string :=
  match s with
  | EmptyString => EmptyString
  | String c rest => String (lowerChar c) (toLowerCase rest)
  end.

(** White space removed by [trim]: TAB, LF, VT, FF, CR and space. *)
Definition isWhiteSpace (c : ascii) : bool :=
  let n := nat_of_ascii c in
  (((9 <=? n)%nat && (n <=? 13)%nat) || (n =? 32)%nat)%bool.

Fixpoint trimStart (s : string) : string :=
  match s with
  | EmptyString => EmptyString
  | String c rest => if isWhiteSpace c then trimStart rest else s
  end.

Fixpoint trimEnd (s : string) : string :=
  match s with
  | EmptyString => EmptyString
  | String c rest =>
      let r := trimEnd rest in
      if (isWhiteSpace c && falsy r)%bool then EmptyString else String c r
  end.

(** [s.trim()]. *)
Definition trim (s : string) : string := trimEnd (trimStart s).

(** [s.split(sep)] for a one-character separator: never the empty
    array, [''.split(',')] is [['']]. *)
Fixpoint split (sep : ascii) (s : string) : list string :=
  match s with
  | EmptyString => [EmptyString]
  | String c rest =>
      if Ascii.eqb c sep then EmptyString :: split sep rest
      else match split sep rest with
           | [] => [String c EmptyString]
           | h :: t => String c h :: t
           end
  end.

Fixpoint startsWith (p s : string) : bool :=
  match p, s with
  | EmptyString, _ => true
  | String _ _, EmptyString => false
  | String a p', String b s' => (Ascii.eqb a b && startsWith p' s')%bool
  end.

(** [s.includes(p)]. *)
Fixpoint includes (p s : string) : bool :=
  (startsWith p s ||
   match s with
   | EmptyString => false
   | String _ rest => includes p rest
   end)%bool.

End JsString.

(** ** Location data *)

(** [interface LocationData]. The [timestamp] is the ISO-8601 text that
    [new Date().toISOString()] produced. *)
Record LocationData := mkLocationData {
  latitude : R;
  longitude : R;
  timestamp : string;
  locationName : option string
}.

(** ** The place-change comparison *)

Definition comma : ascii := ",".

(** [name.toLowerCase().split(',').map(part => part.trim())]. *)
Definition nameParts (name : string) : list string :=
  map JsString.trim (JsString.split comma (JsString.toLowerCase name)).

(** [a[i] !== b[i]]: an index past the end reads [undefined]. *)
Definition partDiffers (a b : list string) (i : nat) : bool :=
  negb (bool_decide (a !! i = b !! i)).

(** [hasLocationNameChanged(oldName, newName)]. *)
Definition hasLocationNameChanged (oldName newName : string) : bool :=
  if (JsString.falsy oldName || JsString.falsy newName)%bool then true
  else
    let oldParts := nameParts oldName in
    let newParts := nameParts newName in
    if partDiffers oldParts newParts 0 then true
    else if ((1 <? length oldParts)%nat && (1 <? length newParts)%nat
             && partDiffers oldParts newParts 1)%bool then true
    else if ((2 <? length oldParts)%nat && (2 <? length newParts)%nat
             && partDiffers oldParts newParts 2)%bool then true
    else false.

Example nameParts_example :
  nameParts "Blue Bottle Cafe,  Main St , Springfield" =
  ["blue bottle cafe"; "main st"; "springfield"].
Proof. vm_compute. reflexivity. Qed.

(** ** Geodesic distance *)

Local Open Scope R_scope.

(** [Math.atan2(y, x)]. *)
Definition atan2 (y x : R) : R :=
  if Rlt_dec 0 x then atan (y / x)
  else if Rlt_dec x 0 then
    (if Rle_dec 0 y then atan (y / x) + PI else atan (y / x) - PI)
  else if Rlt_dec 0 y then PI / 2
  else if Rlt_dec y 0 then - (PI / 2)
  else 0.

(** [calculateDistance(lat1, lon1, lat2, lon2)]: the haversine formula on
    a sphere of radius 6371 km, in meters. *)
Definition calculateDistance (lat1 lon1 lat2 lon2 : R) : R :=
  let earthRadius := 6371000 in
  let phi1 := lat1 * PI / 180 in
  let phi2 := lat2 * PI / 180 in
  let dphi := (lat2 - lat1) * PI / 180 in
  let dlambda := (lon2 - lon1) * PI / 180 in
  let a := sin (dphi / 2) * sin (dphi / 2) +
           cos phi1 * cos phi2 * sin (dlambda / 2) * sin (dlambda / 2) in
  let c := 2 * atan2 (sqrt a) (sqrt (1 - a)) in
  earthRadius * c.

(** [LOCATION_RADIUS]: 100 meters. *)
Definition LOCATION_RADIUS : R := 100.

Local Close Scope R_scope.

(** [STATIONARY_THRESHOLD]: 5 minutes, in milliseconds. *)
Definition STATIONARY_THRESHOLD : Z := 5 * 60 * 1000.

(** ** The detector and its persisted state *)

(** The fields of [class LocationService] that the detector reads and
    writes; they live in memory only. *)
Record LocationService := mkLocationService {
  lastSignificantLocation : option LocationData;
  lastLocationUpdate : option LocationData;
  stationaryStartTime : option Z
}.

(** AsyncStorage as the location code uses it: one list of locations per
    key [significant_locations_YYYY-MM-DD] (the map is keyed by the date
    text) and the single key [last_significant_location]. *)
Record AsyncStorage := mkAsyncStorage {
  significant_locations : gmap string (list LocationData);
  last_significant_location : option LocationData
}.

Record World := mkWorld {
  service : LocationService;
  storage : AsyncStorage
}.

(** The field initialisers of the class: what a fresh process holds. *)
Definition newLocationService : LocationService :=
  {| lastSignificantLocation := None;
     lastLocationUpdate := None;
     stationaryStartTime := None |}.

Definition emptyStorage : AsyncStorage :=
  {| significant_locations := ∅; last_significant_location := None |}.

(** First launch after installation. *)
Definition freshWorld : World :=
  {| service := newLocationService; storage := emptyStorage |}.

(** The process is killed and started again: memory is initialised anew,
    AsyncStorage is kept. *)
Definition restart (w : World) : World :=
  {| service := newLocationService; storage := storage w |}.

(** [loadLastSignificantLocation()]. *)
Definition loadLastSignificantLocation (w : World) : World :=
  match last_significant_location (storage w) with
  | Some data =>
      {| service :=
           {| lastSignificantLocation := Some data;
              lastLocationUpdate := lastLocationUpdate (service w);
              stationaryStartTime := stationaryStartTime (service w) |};
         storage := storage w |}
  | None => w
  end.

(** [saveLastSignificantLocation(location)]. *)
Definition saveLastSignificantLocation (location : LocationData) (st : AsyncStorage)
  : AsyncStorage :=
  {| significant_locations := significant_locations st;
     last_significant_location := Some location |}.

(** What one call of the detector reads from outside: the clock when the
    fix is examined, the clock again after labelling and saving (line 264),
    and the label [getLocationName] resolves to for the fix. *)
Record Env := mkEnv {
  now : Z;
  nowAfterSave : Z;
  geocoded : string
}.

(** The branch a call took, named after its log line. *)
Inductive Branch :=
| FirstLocationEver
| StartingTracking
| MovedSignificantly
| NewSignificantLocation
| SameLocation
| NotStationaryLongEnough.

Record CheckResult := mkCheckResult {
  significant : bool;           (* the returned promise's value *)
  branch : Branch;
  checkedLocation : LocationData; (* [newLocation] after the call: the label is written into it *)
  world : World
}.

(** [this.lastLocationUpdate = newLocation; this.stationaryStartTime = Date.now()]. *)
Definition startWindow (t : Z) (newLocation : LocationData) (w : World) : World :=
  {| service :=
       {| lastSignificantLocation := lastSignificantLocation (service w);
          lastLocationUpdate := Some newLocation;
          stationaryStartTime := Some t |};
     storage := storage w |}.

(** The stationary branch when the label changed: the candidate becomes
    the last significant location, in memory and in storage, and the
    stationary timer restarts. *)
Definition markSignificant (t : Z) (newLocation : LocationData) (w : World) : World :=
  {| service :=
       {| lastSignificantLocation := Some newLocation;
          lastLocationUpdate := lastLocationUpdate (service w);
          stationaryStartTime := Some t |};
     storage := saveLastSignificantLocation newLocation (storage w) |}.

Definition setLocationName (name : string) (l : LocationData) : LocationData :=
  {| latitude := latitude l; longitude := longitude l;
     timestamp := timestamp l; locationName := Some name |}.

(** A number used as a condition: [null] and [0] are falsy. *)
Definition truthyTime (t : option Z) : option Z :=
  match t with
  | Some v => if v =? 0 then None else Some v
  | None => None
  end.

(** [checkForSignificantLocationChange(newLocation)]. *)
Definition checkForSignificantLocationChange
    (env : Env) (newLocation : LocationData) (w0 : World) : CheckResult :=
  let w := match lastSignificantLocation (service w0) with
           | None => loadLastSignificantLocation w0
           | Some _ => w0
           end in
  match lastSignificantLocation (service w) with
  | None =>
      mkCheckResult false FirstLocationEver newLocation (startWindow (now env) newLocation w)
  | Some lastSignificant =>
      match lastLocationUpdate (service w) with
      | None =>
          mkCheckResult false StartingTracking newLocation
                        (startWindow (now env) newLocation w)
      | Some lastUpdate =>
          let distance :=
            calculateDistance (latitude lastUpdate) (longitude lastUpdate)
                              (latitude newLocation) (longitude newLocation) in
          if Rgt_dec distance LOCATION_RADIUS then
            mkCheckResult false MovedSignificantly newLocation
                          (startWindow (now env) newLocation w)
          else
            match truthyTime (stationaryStartTime (service w)) with
            | Some start =>
                if Rle_dec distance LOCATION_RADIUS then
                  let stationaryTime := now env - start in
                  if STATIONARY_THRESHOLD <=? stationaryTime then
                    let newLocationName := geocoded env in
                    let labelled := setLocationName newLocationName newLocation in
                    let lastLocationName :=
                      JsString.or_else (default "" (locationName lastSignificant)) "" in
                    if hasLocationNameChanged lastLocationName newLocationName then
                      mkCheckResult true NewSignificantLocation labelled
                                    (markSignificant (nowAfterSave env) labelled w)
                    else
                      mkCheckResult false SameLocation labelled w
                  else
                    mkCheckResult false NotStationaryLongEnough newLocation w
                else
                  mkCheckResult false NotStationaryLongEnough newLocation w
            | None =>
                mkCheckResult false NotStationaryLongEnough newLocation w
            end
      end
  end.

(** ** The daily store and the background task *)

(** What one run of the background task reads from outside. *)
Record TaskEnv := mkTaskEnv {
  received : Z;       (* [new Date()] when the fix is wrapped *)
  checkEnv : Env;
  saveToday : Z;      (* [new Date()] inside [saveSignificantLocation] *)
  saveNow : Z         (* [Date.now()] inside [saveSignificantLocation] *)
}.

(** One fix delivered by the platform: [coords.latitude], [coords.longitude]. *)
Record Coords := mkCoords { coordsLatitude : R; coordsLongitude : R }.

Section DailyStore.

(** [Date.prototype.toISOString] of the instant [t] (milliseconds since
    the epoch) and [new Date(text).getTime()], [None] for an invalid
    date: the two built-ins the store calls. *)
Variable toISOString : Z -> string.
Variable parseDate : string -> option Z.

(** [new Date(t).toISOString().split('T')[0]]: the text [YYYY-MM-DD]. *)
Definition isoDay (t : Z) : string :=
  default "" (head (JsString.split "T"%char (toISOString t))).

(** [new Date(loc.timestamp) > oneDayAgo]; a comparison with an invalid
    date is false. *)
Definition newerThan (oneDayAgo : Z) (loc : LocationData) : bool :=
  match parseDate (timestamp loc) with
  | Some t => oneDayAgo <? t
  | None => false
  end.

(** [saveSignificantLocation(location)]: [today] is the [new Date()] the
    key is built from, [nowMs] the [Date.now()] of the retention cut. *)
Definition saveSignificantLocation
    (today nowMs : Z) (location : LocationData) (st : AsyncStorage) : AsyncStorage :=
  let key := isoDay today in
  let locations := default [] (significant_locations st !! key) in
  let locations := (locations ++ [location])%list in
  let oneDayAgo := nowMs - 24 * 60 * 60 * 1000 in
  let filteredLocations := List.filter (newerThan oneDayAgo) locations in
  {| significant_locations := <[key := filteredLocations]> (significant_locations st);
     last_significant_location := last_significant_location st |}.

(** [loadSignificantLocations(date)]. *)
Definition loadSignificantLocations (date : Z) (st : AsyncStorage) : list LocationData :=
  default [] (significant_locations st !! isoDay date).

(** The task registered as ['background-location-task']: it returns the
    detector's answer and the world it leaves. *)
Definition backgroundLocationTask (env : TaskEnv) (coords : Coords) (w : World)
  : bool * World :=
  let locationData :=
    {| latitude := coordsLatitude coords;
       longitude := coordsLongitude coords;
       timestamp := toISOString (received env);
       locationName := None |} in
  let r := checkForSignificantLocationChange (checkEnv env) locationData w in
  if significant r then
    (true,
     {| service := service (world r);
        storage := saveSignificantLocation (saveToday env) (saveNow env)
                     (checkedLocation r) (storage (world r)) |})
  else (false, world r).

(** The task run on a sequence of fixes, in order. *)
Fixpoint runTasks (fixes : list (TaskEnv * Coords)) (w : World) : list bool * World :=
  match fixes with
  | [] => ([], w)
  | (env, coords) :: rest =>
      let '(b, w1) := backgroundLocationTask env coords w in
      let '(bs, w2) := runTasks rest w1 in
      (b :: bs, w2)
  end.

End DailyStore.

(** ** Reverse label lookup *)

(** The fields [getLocationName] reads of an entry of
    [Location.reverseGeocodeAsync]'s result. *)
Record GeocodedAddress := mkGeocodedAddress {
  name : option string;
  street : option string;
  district : option string;
  city : option string;
  region : option string
}.

(** What the device geocoder does when awaited. *)
Inductive DeviceGeocoding :=
| DeviceThrows
| DeviceReturns (results : list GeocodedAddress).

(** What the remote lookup does when awaited: [fetch] or [response.json()]
    throws, or the body is read, with its [status] and the
    [formatted_address] of each of its [results]. *)
Inductive RemoteGeocoding :=
| RemoteThrows
| RemoteResponds (status : string) (formatted_addresses : list string).

(** [if (field) parts.push(field)]. *)
Definition pushIfTruthy (field : option string) (parts : list string) : list string :=
  match field with
  | Some s => if JsString.falsy s then parts else (parts ++ [s])%list
  | None => parts
  end.

(** [parts.join(', ')]. *)
Definition joinComma (parts : list string) : string := String.concat ", " parts.

(** The address built from the first device result. *)
Definition deviceAddress (location : GeocodedAddress) : string :=
  let parts := [] in
  let parts := pushIfTruthy (name location) parts in
  let parts := pushIfTruthy (street location) parts in
  let parts := pushIfTruthy (district location) parts in
  let parts := pushIfTruthy (city location) parts in
  let parts := pushIfTruthy (region location) parts in
  joinComma (List.filter (fun p => negb (JsString.falsy p)) parts).

(** The [return] statement a call of [getLocationName] reaches. *)
Inductive LabelSource :=
| FromDevice (address : string)
| FromRemote (address : string)
| FromCoordinates.

(** The remote part of [getLocationName], entered when the device
    geocoder returned without a usable address. *)
Definition remoteSource (remote : RemoteGeocoding) : LabelSource :=
  match remote with
  | RemoteResponds status (address :: _) =>
      if String.eqb status "OK" then FromRemote address else FromCoordinates
  | RemoteResponds _ [] => FromCoordinates
  | RemoteThrows => FromCoordinates
  end.

(** The control flow of [getLocationName]: an exception of the device
    geocoder is caught by the outer handler, which returns the coordinates. *)
Definition locationNameSource (device : DeviceGeocoding) (remote : RemoteGeocoding)
  : LabelSource :=
  match device with
  | DeviceThrows => FromCoordinates
  | DeviceReturns [] => remoteSource remote
  | DeviceReturns (location :: _) =>
      let address := deviceAddress location in
      if JsString.falsy address then remoteSource remote else FromDevice address
  end.


Section ReverseLookup.

(** [x.toFixed(4)]. *)
Variable toFixed4 : R -> string.

(** [`${latitude.toFixed(4)}, ${longitude.toFixed(4)}`]. *)
Definition coordinateLabel (lat lon : R) : string :=
  toFixed4 lat ++ ", " ++ toFixed4 lon.

(** [getLocationName(latitude, longitude)]. *)
Definition getLocationName
    (lat lon : R) (device : DeviceGeocoding) (remote : RemoteGeocoding) : string :=
  match locationNameSource device remote with
  | FromDevice address => address
  | FromRemote address => address
  | FromCoordinates => coordinateLabel lat lon
  end.

End ReverseLookup.

(** [getLocationIcon(locationName)]. *)
Definition getLocationIcon (locationName : string) : string :=
  let name := JsString.toLowerCase locationName in
  let has (p : string) := JsString.includes p name in
  if (has "home" || has "house")%bool then "🏠"
  else if (has "work" || has "office")%bool then "💼"
  else if (has "gym" || has "fitness")%bool then "💪"
  else if (has "restaurant" || has "cafe" || has "food")%bool then "🍽️"
  else if (has "park" || has "garden")%bool then "🌳"
  else if (has "mall" || has "shopping")%bool then "🛍️"
  else if (has "hospital" || has "clinic")%bool then "🏥"
  else if (has "school" || has "university")%bool then "🎓"
  else if (has "airport" || has "station")%bool then "✈️"
  else if (has "beach" || has "coast")%bool then "🏖️"
  else if (has "mountain" || has "hike")%bool then "⛰️"
  else "📍".

Example getLocationIcon_example : getLocationIcon "Blue Bottle Cafe, Main St" = "🍽️".
Proof. vm_compute. reflexivity. Qed.

(** ** Timeline persistence (DatabaseService and FeedScreen) *)

Module Feed.

(** [interface TimelineEntry]. *)
Record TimelineEntry := mkTimelineEntry {
  id : option nat;
  dailyEntryId : nat;
  locationName : string;
  timestamp : option string;
  latitude : option R;
  longitude : option R;
  icon : option string;
  order : nat
}.

(** The table [timeline_entries] with its AUTOINCREMENT counter: every
    row carries its [id]. *)
Record Database := mkDatabase {
  timeline_entries : list TimelineEntry;
  lastRowId : nat
}.

(** [text || null]: the empty text is stored as NULL. *)
Definition textOrNull (o : option string) : option string :=
  match o with
  | Some s => if JsString.falsy s then None else Some s
  | None => None
  end.

(** [x || null] on a number: zero is stored as NULL. *)
Definition numberOrNull (o : option R) : option R :=
  match o with
  | Some x => if Req_dec_T x 0 then None else Some x
  | None => None
  end.

(** [createTimelineEntry(entry)]: the new row's id and the table. *)
Definition createTimelineEntry (entry : TimelineEntry) (db : Database)
  : nat * Database :=
  let rowId := S (lastRowId db) in
  let row :=
    {| id := Some rowId;
       dailyEntryId := dailyEntryId entry;
       locationName := locationName entry;
       timestamp := textOrNull (timestamp entry);
       latitude := numberOrNull (latitude entry);
       longitude := numberOrNull (longitude entry);
       icon := textOrNull (icon entry);
       order := order entry |} in
  (rowId, {| timeline_entries := (timeline_entries db ++ [row])%list;
             lastRowId := rowId |}).

(** [deleteTimelineEntry(id)]. *)
Definition deleteTimelineEntry (rowId : nat) (db : Database) : Database :=
  {| timeline_entries :=
       List.filter (fun row => negb (bool_decide (id row = Some rowId)))
                   (timeline_entries db);
     lastRowId := lastRowId db |}.

(** The first loop of [handleSaveTimeline]: every entry of the screen's
    copy with a truthy id is deleted. *)
Fixpoint deleteExisting (existingEntries : list TimelineEntry) (db : Database)
  : Database :=
  match existingEntries with
  | [] => db
  | existingEntry :: rest =>
      match id existingEntry with
      | Some (S n) => deleteExisting rest (deleteTimelineEntry (S n) db)
      | _ => deleteExisting rest db
      end
  end.

(** [!newEntry.locationName || !newEntry.timestamp]. *)
Definition missingRequiredFields (newEntry : TimelineEntry) : bool :=
  (JsString.falsy (locationName newEntry)
   || match timestamp newEntry with
      | Some t => JsString.falsy t
      | None => true
      end)%bool.

(** The message of the error the validation throws. *)
Definition validationError : string := "Timeline entry missing required fields".

(** The second loop of [handleSaveTimeline]: entries are validated and
    written one by one; the first invalid one throws. *)
Fixpoint createAll (currentEntryId : nat) (entries : list TimelineEntry)
    (db : Database) : Database * option string :=
  match entries with
  | [] => (db, None)
  | newEntry :: rest =>
      if missingRequiredFields newEntry then (db, Some validationError)
      else
        let timelineEntry :=
          {| id := None;
             dailyEntryId := currentEntryId;
             locationName := locationName newEntry;
             timestamp := timestamp newEntry;
             latitude := numberOrNull (latitude newEntry);
             longitude := numberOrNull (longitude newEntry);
             icon := textOrNull (icon newEntry);
             order := order newEntry |} in
        createAll currentEntryId rest (snd (createTimelineEntry timelineEntry db))
  end.

(** [handleSaveTimeline(entries)]: [editingEntry] is the id of the daily
    entry being edited, [timelineEntries] the screen's copy of the
    stored timelines. The result is the table left behind and the
    message of the alert shown, if any. *)
Definition handleSaveTimeline
    (editingEntry : option nat) (timelineEntries : gmap nat (list TimelineEntry))
    (entries : list TimelineEntry) (db : Database) : Database * option string :=
  match editingEntry with
  | None => (db, None)
  | Some currentEntryId =>
      let existingEntries := default [] (timelineEntries !! currentEntryId) in
      let db := deleteExisting existingEntries db in
      match createAll currentEntryId entries db with
      | (db, Some message) => (db, Some ("Failed to save timeline: " ++ message))
      | (db, None) => (db, None)
      end
  end.

End Feed.

(** ** Timeline merge (LocationHistoryModal) *)

(* The fields of [LocationData], under names that the entry's fields of the
   same names do not hide. *)
Local Abbreviation location_name := locationName (only parsing).
Local Abbreviation location_timestamp := timestamp (only parsing).
Local Abbreviation location_latitude := latitude (only parsing).
Local Abbreviation location_longitude := longitude (only parsing).

Module Modal.

(** [interface EditableLocationEntry], without the search fields. An
    entry copied from the database may lack its optional fields. *)
Record EditableLocationEntry := mkEntry {
  id : option nat;
  locationName : string;
  timestamp : option string;
  latitude : option R;
  longitude : option R;
  icon : option string;
  order : nat;
  isEditing : bool
}.

(** [{ ...entry, order: index }]. *)
Definition withOrder (index : nat) (entry : EditableLocationEntry)
  : EditableLocationEntry :=
  {| id := id entry; locationName := locationName entry;
     timestamp := timestamp entry; latitude := latitude entry;
     longitude := longitude entry; icon := icon entry;
     order := index; isEditing := isEditing entry |}.

(** [list.map((entry, index) => ({ ...entry, order: index }))]. *)
Definition reindex (entries : list EditableLocationEntry) : list EditableLocationEntry :=
  imap withOrder entries.

(** The conversion of one stored location, [offset] being [entries.length]. *)
Definition fromLocation (offset index : nat) (location : LocationData)
  : EditableLocationEntry :=
  let stored := default "" (location_name location) in
  {| id := None;
     locationName := JsString.or_else stored "Unknown Location";
     timestamp := Some (location_timestamp location);
     latitude := Some (location_latitude location);
     longitude := Some (location_longitude location);
     icon := Some (getLocationIcon (JsString.or_else stored ""));
     order := offset + index;
     isEditing := false |}.

(** [!existingTimestamps.includes(entry.timestamp)]. *)
Definition isNew (existingTimestamps : list (option string))
    (entry : EditableLocationEntry) : bool :=
  negb (bool_decide (timestamp entry ∈ existingTimestamps)).

(** The entries of [locationHistory] that survive de-duplication. *)
Definition uniqueNewEntries
    (locationHistory : list LocationData) (entries : list EditableLocationEntry)
  : list EditableLocationEntry :=
  let newEntries := imap (fromLocation (length entries)) locationHistory in
  let existingTimestamps := timestamp <$> entries in
  List.filter (isNew existingTimestamps) newEntries.

(** [handleAddFromLocationHistory]: [locationHistory] is what
    [getLocationHistoryForTimeline(date)] resolved to, [entries] the
    modal's state; the result is the state the handler leaves. *)
Definition handleAddFromLocationHistory
    (locationHistory : list LocationData) (entries : list EditableLocationEntry)
  : list EditableLocationEntry :=
  let unique := uniqueNewEntries locationHistory entries in
  if (0 <? length unique)%nat then reindex (entries ++ unique)
  else entries.

(** An entry being edited, copied from a stored timeline entry. *)
Definition fromTimelineEntry (index : nat) (entry : Feed.TimelineEntry)
  : EditableLocationEntry :=
  {| id := Feed.id entry;
     locationName := Feed.locationName entry;
     timestamp := Feed.timestamp entry;
     latitude := Feed.latitude entry;
     longitude := Feed.longitude entry;
     icon := Feed.icon entry;
     order := index;
     isEditing := false |}.

(** [loadLocationHistory()]: the state the modal opens with, from the
    entry's stored timeline if it has one, from the day's stored
    locations otherwise. *)
Definition loadLocationHistory
    (existingEntries : list Feed.TimelineEntry) (locationHistory : list LocationData)
  : list EditableLocationEntry :=
  if (0 <? length existingEntries)%nat then imap fromTimelineEntry existingEntries
  else imap (fromLocation 0) locationHistory.

(** The confirmed deletion of [handleDeleteEntry(index)]. *)
Definition handleDeleteEntry (index : nat) (entries : list EditableLocationEntry)
  : list EditableLocationEntry :=
  reindex (delete index entries).

(** Positions are [0, 1, ..., n-1] in list order. *)
Definition dense (entries : list EditableLocationEntry) : Prop :=
  order <$> entries = seq 0 (length entries).

End Modal.


(** * Properties *)

(** ** The place-change comparison *)

Lemma falsy_spec (s : string) : JsString.falsy s = true <-> s = "".
Proof. destruct s; simpl; split; congruence. Qed.

Lemma falsy_false_spec (s : string) : JsString.falsy s = false <-> s <> "".
Proof. destruct s; simpl; split; congruence. Qed.

Lemma partDiffers_false (a b : list string) (i : nat) :
  partDiffers a b i = false <-> a !! i = b !! i.
Proof.
  unfold partDiffers. rewrite negb_false_iff. apply bool_decide_eq_true.
Qed.




(** The parts of a label always have a part 0: [split] never returns the
    empty array. *)
Lemma split_nonempty (sep : ascii) (s : string) : JsString.split sep s <> [].
Proof.
  induction s as [| c rest IH]; simpl; [discriminate |].
  destruct (Ascii.eqb c sep); [discriminate |].
  destruct (JsString.split sep rest); discriminate.
Qed.

Lemma nameParts_has_part0 (name : string) : is_Some (nameParts name !! 0%nat).
Proof.
  unfold nameParts.
  pose proof (split_nonempty comma (JsString.toLowerCase name)) as H.
  destruct (JsString.split comma (JsString.toLowerCase name)); [contradiction |].
  simpl. eauto.
Qed.

Example same_place_example :
  hasLocationNameChanged "Blue Bottle Cafe, Main St, Springfield"
                         "blue bottle cafe,MAIN ST" = false.
Proof. vm_compute. reflexivity. Qed.

Example changed_example :
  hasLocationNameChanged "Home, Main St, Springfield"
                         "Home, Main St, Shelbyville" = true.
Proof. vm_compute. reflexivity. Qed.

(** ** Geodesic distance along a meridian *)

Local Open Scope R_scope.

Lemma PI_gt_3 : 3 < PI.
Proof. pose proof PI2_3_2. lra. Qed.

Lemma atan2_sin_cos (x : R) :
  0 <= x < PI / 2 ->
  atan2 (sqrt (sin x * sin x)) (sqrt (1 - sin x * sin x)) = x.
Proof.
  intros [H0 H1].
  assert (Hs : 0 <= sin x) by (apply sin_ge_0; pose proof PI_RGT_0; lra).
  assert (Hc : 0 < cos x) by (apply cos_gt_0; lra).
  rewrite sqrt_square by exact Hs.
  replace (1 - sin x * sin x) with (cos x * cos x)
    by (pose proof (sin2_cos2 x) as E; unfold Rsqr in E; lra).
  rewrite sqrt_square by lra.
  unfold atan2. destruct (Rlt_dec 0 (cos x)) as [_ | Hn]; [| contradiction].
  change (sin x / cos x) with (tan x). apply atan_tan. lra.
Qed.

(** Two points on one meridian, the second to the north: the formula
    gives the arc between them. *)
Lemma calculateDistance_along_meridian (lat1 lat2 lon : R) :
  0 <= lat2 - lat1 < 180 ->
  calculateDistance lat1 lon lat2 lon = 6371000 * ((lat2 - lat1) * PI / 180).
Proof.
  intros [H0 H1]. unfold calculateDistance.
  replace ((lon - lon) * PI / 180 / 2) with 0 by lra.
  rewrite sin_0, !Rmult_0_r, Rplus_0_r.
  rewrite atan2_sin_cos.
  - lra.
  - pose proof PI_RGT_0. split.
    + apply Rmult_le_pos; [| lra]. apply Rmult_le_pos; [| lra].
      apply Rmult_le_pos; lra.
    + nra.
Qed.

(** X1. The formula does not depend on the order of its two points, and gives
    zero for a point and itself. *)
Theorem calculateDistance_symmetric_and_zero :
  forall lat1 lon1 lat2 lon2 : R,
    calculateDistance lat1 lon1 lat2 lon2 = calculateDistance lat2 lon2 lat1 lon1 /\
    calculateDistance lat1 lon1 lat1 lon1 = 0.
Proof.
  intros lat1 lon1 lat2 lon2. split.
  - unfold calculateDistance.
    replace ((lat1 - lat2) * PI / 180 / 2) with (- ((lat2 - lat1) * PI / 180 / 2)) by lra.
    replace ((lon1 - lon2) * PI / 180 / 2) with (- ((lon2 - lon1) * PI / 180 / 2)) by lra.
    rewrite !sin_neg.
    set (u := sin ((lat2 - lat1) * PI / 180 / 2)).
    set (v := sin ((lon2 - lon1) * PI / 180 / 2)).
    replace (- u * - u + cos (lat2 * PI / 180) * cos (lat1 * PI / 180) * - v * - v)
      with (u * u + cos (lat1 * PI / 180) * cos (lat2 * PI / 180) * v * v) by ring.
    reflexivity.
  - rewrite calculateDistance_along_meridian; lra.
Qed.

(** Within 7/10000 of a degree of latitude on one meridian: inside the radius. *)
Lemma meridian_within_radius (lat1 lat2 lon : R) :
  0 <= lat2 - lat1 <= 7 / 10000 ->
  calculateDistance lat1 lon lat2 lon <= LOCATION_RADIUS.
Proof.
  intros H. rewrite calculateDistance_along_meridian by lra.
  unfold LOCATION_RADIUS. pose proof PI_4. pose proof PI_RGT_0. nra.
Qed.

(** From 14/10000 of a degree of latitude on: outside the radius. *)
Lemma meridian_beyond_radius (lat1 lat2 lon : R) :
  14 / 10000 <= lat2 - lat1 < 180 ->
  calculateDistance lat1 lon lat2 lon > LOCATION_RADIUS.
Proof.
  intros H. rewrite calculateDistance_along_meridian by lra.
  unfold LOCATION_RADIUS. pose proof PI_gt_3. nra.
Qed.

Local Close Scope R_scope.

(** ** The detector, branch by branch *)

Definition distanceFrom (reference newLocation : LocationData) : R :=
  calculateDistance (latitude reference) (longitude reference)
                    (latitude newLocation) (longitude newLocation).

(** What the detector works on after its first statement. *)
Definition afterLoad (w : World) : World :=
  match lastSignificantLocation (service w) with
  | None => loadLastSignificantLocation w
  | Some _ => w
  end.

(** A last significant location is known to the next call: in memory or
    in storage. *)
Definition knownSignificant (w : World) : option LocationData :=
  lastSignificantLocation (service (afterLoad w)).

Lemma afterLoad_in_memory (w : World) (s : LocationData) :
  lastSignificantLocation (service w) = Some s -> afterLoad w = w.
Proof. intros H. unfold afterLoad. rewrite H. reflexivity. Qed.

Lemma afterLoad_update (w : World) :
  lastLocationUpdate (service (afterLoad w)) = lastLocationUpdate (service w).
Proof.
  unfold afterLoad, loadLastSignificantLocation.
  destruct (lastSignificantLocation (service w)); [reflexivity |].
  destruct (last_significant_location (storage w)); reflexivity.
Qed.

Lemma afterLoad_start (w : World) :
  stationaryStartTime (service (afterLoad w)) = stationaryStartTime (service w).
Proof.
  unfold afterLoad, loadLastSignificantLocation.
  destruct (lastSignificantLocation (service w)); [reflexivity |].
  destruct (last_significant_location (storage w)); reflexivity.
Qed.

Lemma afterLoad_storage (w : World) : storage (afterLoad w) = storage w.
Proof.
  unfold afterLoad, loadLastSignificantLocation.
  destruct (lastSignificantLocation (service w)); [reflexivity |].
  destruct (last_significant_location (storage w)); reflexivity.
Qed.

(** No last significant location in memory or storage: the first branch. *)
Lemma check_first_location_ever (env : Env) (newLocation : LocationData) (w : World) :
  knownSignificant w = None ->
  checkForSignificantLocationChange env newLocation w =
  mkCheckResult false FirstLocationEver newLocation
                (startWindow (now env) newLocation (afterLoad w)).
Proof.
  unfold knownSignificant, checkForSignificantLocationChange. fold (afterLoad w).
  intros H. rewrite H. reflexivity.
Qed.

(** No reference fix yet: the second branch. *)
Lemma check_starting_tracking (env : Env) (newLocation : LocationData) (w : World)
    (s : LocationData) :
  knownSignificant w = Some s ->
  lastLocationUpdate (service w) = None ->
  checkForSignificantLocationChange env newLocation w =
  mkCheckResult false StartingTracking newLocation
                (startWindow (now env) newLocation (afterLoad w)).
Proof.
  unfold knownSignificant, checkForSignificantLocationChange. fold (afterLoad w).
  intros H1 H2. rewrite H1, afterLoad_update, H2. reflexivity.
Qed.

(** More than the radius away from the reference fix: the third branch. *)
Lemma check_moved (env : Env) (newLocation : LocationData) (w : World)
    (s lastUpdate : LocationData) :
  knownSignificant w = Some s ->
  lastLocationUpdate (service w) = Some lastUpdate ->
  (distanceFrom lastUpdate newLocation > LOCATION_RADIUS)%R ->
  checkForSignificantLocationChange env newLocation w =
  mkCheckResult false MovedSignificantly newLocation
                (startWindow (now env) newLocation (afterLoad w)).
Proof.
  unfold knownSignificant, checkForSignificantLocationChange, distanceFrom.
  fold (afterLoad w).
  intros H1 H2 H3. rewrite H1, afterLoad_update, H2.
  destruct (Rgt_dec _ _) as [_ | Hn]; [reflexivity | contradiction].
Qed.

(** Within the radius of the reference fix. *)
Lemma check_within_radius (env : Env) (newLocation : LocationData) (w : World)
    (s lastUpdate : LocationData) :
  knownSignificant w = Some s ->
  lastLocationUpdate (service w) = Some lastUpdate ->
  (distanceFrom lastUpdate newLocation <= LOCATION_RADIUS)%R ->
  checkForSignificantLocationChange env newLocation w =
  match truthyTime (stationaryStartTime (service w)) with
  | Some start =>
      if STATIONARY_THRESHOLD <=? now env - start then
        let labelled := setLocationName (geocoded env) newLocation in
        if hasLocationNameChanged
             (JsString.or_else (default "" (locationName s)) "") (geocoded env)
        then mkCheckResult true NewSignificantLocation labelled
                           (markSignificant (nowAfterSave env) labelled (afterLoad w))
        else mkCheckResult false SameLocation labelled (afterLoad w)
      else mkCheckResult false NotStationaryLongEnough newLocation (afterLoad w)
  | None => mkCheckResult false NotStationaryLongEnough newLocation (afterLoad w)
  end.
Proof.
  unfold knownSignificant, checkForSignificantLocationChange, distanceFrom.
  fold (afterLoad w).
  intros H1 H2 H3. rewrite H1, afterLoad_update, H2, afterLoad_start.
  destruct (Rgt_dec _ _) as [Hgt | _]; [lra |].
  destruct (truthyTime _); [| reflexivity].
  destruct (Rle_dec _ _) as [_ | Hn]; [reflexivity | contradiction].
Qed.

Lemma knownSignificant_None (w : World) :
  knownSignificant w = None <->
  lastSignificantLocation (service w) = None /\
  last_significant_location (storage w) = None.
Proof.
  unfold knownSignificant, afterLoad, loadLastSignificantLocation.
  destruct (lastSignificantLocation (service w)) eqn:E.
  - rewrite E. split; [discriminate | intros [? _]; discriminate].
  - destruct (last_significant_location (storage w)); simpl.
    + split; [discriminate | intros [_ ?]; discriminate].
    + rewrite E. tauto.
Qed.

(** ** First launch: no location is ever confirmed *)

Section FirstLaunch.

Variable toISOString : Z -> string.
Variable parseDate : string -> option Z.

Let task := backgroundLocationTask toISOString parseDate.
Let run := runTasks toISOString parseDate.

(** With no last significant location in memory or storage, a run of the
    task answers [false], saves nothing and leaves none behind. *)
Lemma task_without_significant (env : TaskEnv) (coords : Coords) (w : World) :
  knownSignificant w = None ->
  fst (task env coords w) = false /\
  knownSignificant (snd (task env coords w)) = None /\
  storage (snd (task env coords w)) = storage w.
Proof.
  intros H. unfold task, backgroundLocationTask.
  rewrite check_first_location_ever by exact H. simpl.
  split; [reflexivity |]. split; [| apply afterLoad_storage].
  apply knownSignificant_None in H as [H1 H2].
  apply knownSignificant_None. simpl. rewrite afterLoad_storage.
  split; [| exact H2].
  unfold afterLoad. rewrite H1. unfold loadLastSignificantLocation.
  rewrite H2. exact H1.
Qed.

Lemma run_without_significant (fixes : list (TaskEnv * Coords)) (w : World) :
  knownSignificant w = None ->
  Forall (fun answer => answer = false) (fst (run fixes w)) /\
  knownSignificant (snd (run fixes w)) = None /\
  storage (snd (run fixes w)) = storage w.
Proof.
  revert w. induction fixes as [| [env coords] rest IH]; intros w H.
  - simpl. auto.
  - destruct (task_without_significant env coords w H) as (Hb & Hk & Hs).
    unfold run, task in *. simpl.
    destruct (backgroundLocationTask toISOString parseDate env coords w) as [b w1].
    simpl in Hb, Hk, Hs. subst b.
    destruct (IH w1 Hk) as (Hbs & Hk2 & Hs2).
    destruct (runTasks toISOString parseDate rest w1) as [bs w2].
    simpl in *. split; [constructor; [reflexivity | exact Hbs] |].
    split; [exact Hk2 | congruence].
Qed.

(** The instants of the scenario, in milliseconds since the epoch. *)
Definition scenarioStart : Z := 1700000000000.

Definition scenarioEnv (elapsed : Z) (label : string) : TaskEnv :=
  {| received := scenarioStart + elapsed;
     checkEnv := {| now := scenarioStart + elapsed;
                    nowAfterSave := scenarioStart + elapsed + 1;
                    geocoded := label |};
     saveToday := scenarioStart + elapsed + 1;
     saveNow := scenarioStart + elapsed + 1 |}.

Definition homeCoords : Coords := mkCoords 40 (-74).
(** 500 m north of [homeCoords]. *)
Definition officeCoords : Coords := mkCoords (40 + 45 / 10000) (-74).

(** A first stationary window at home of five minutes and a second,
    500 m away, of five minutes, with labels that differ in part 0. *)
Definition twoWindows : list (TaskEnv * Coords) :=
  [ (scenarioEnv 0 "Home, Main St, Springfield", homeCoords);
    (scenarioEnv 300001 "Home, Main St, Springfield", homeCoords);
    (scenarioEnv 600000 "Office, Broad St, Springfield", officeCoords);
    (scenarioEnv 900001 "Office, Broad St, Springfield", officeCoords) ].

(** C1, the code at the failing input. On a first launch the two
    stationary windows are answered [false] four times: the first window
    is not adopted as the last significant location (none is known
    afterwards, in memory or in storage), no location is saved, and the
    second window is not confirmed. *)
Theorem first_launch_two_windows_confirm_nothing :
  fst (run twoWindows freshWorld) = [false; false; false; false] /\
  knownSignificant (snd (run twoWindows freshWorld)) = None /\
  storage (snd (run twoWindows freshWorld)) = emptyStorage.
Proof.
  assert (H0 : knownSignificant freshWorld = None) by reflexivity.
  destruct (run_without_significant twoWindows freshWorld H0) as (Hb & Hk & Hs).
  split; [| split; [exact Hk | exact Hs]].
  assert (Hlen : length (fst (run twoWindows freshWorld)) = 4%nat).
  { unfold run, twoWindows. simpl.
    repeat match goal with
           | |- context [backgroundLocationTask ?a ?b ?c ?d ?e] =>
               destruct (backgroundLocationTask a b c d e)
           end.
    reflexivity. }
  destruct (fst (run twoWindows freshWorld)) as [| b1 [| b2 [| b3 [| b4 [| ? ?]]]]];
    try discriminate.
  inversion Hb as [| ? ? E1 Hb1]; subst.
  inversion Hb1 as [| ? ? E2 Hb2]; subst.
  inversion Hb2 as [| ? ? E3 Hb3]; subst.
  inversion Hb3 as [| ? ? E4 _]; subst.
  reflexivity.
Qed.

End FirstLaunch.

(** ** A settled detector: the worlds of the examples *)

Definition homeLabel : string := "Home, Main St, Springfield".
Definition officeLabel : string := "Office, Broad St, Springfield".

(** The last confirmed place. *)
Definition homeStay : LocationData :=
  {| latitude := 40; longitude := -74;
     timestamp := "2023-11-14T21:00:00.000Z";
     locationName := Some homeLabel |}.

(** The fix that opened the current stationary window, at [scenarioStart]. *)
Definition windowFix : LocationData :=
  {| latitude := 40; longitude := -74;
     timestamp := "2023-11-14T22:13:20.000Z";
     locationName := None |}.

(** A later fix [tenThousandths]/10000 of a degree north of [windowFix]. *)
Definition fixNorth (tenThousandths : Z) (stamp : string) : LocationData :=
  {| latitude := 40 + IZR tenThousandths / 10000; longitude := -74;
     timestamp := stamp;
     locationName := None |}.

(** A detector that knows [homeStay] and has been watching a stationary
    window since [scenarioStart]. *)
Definition settledWorld : World :=
  {| service := {| lastSignificantLocation := Some homeStay;
                   lastLocationUpdate := Some windowFix;
                   stationaryStartTime := Some scenarioStart |};
     storage := {| significant_locations := ∅;
                   last_significant_location := Some homeStay |} |}.

Definition envAt (elapsed : Z) (label : string) : Env :=
  {| now := scenarioStart + elapsed;
     nowAfterSave := scenarioStart + elapsed + 1;
     geocoded := label |}.

Lemma distanceFrom_windowFix_north (k : Z) (stamp : string) :
  (0 <= k <= 7)%Z ->
  (distanceFrom windowFix (fixNorth k stamp) <= LOCATION_RADIUS)%R.
Proof.
  intros [H0 H1]. unfold distanceFrom. simpl.
  apply meridian_within_radius.
  apply IZR_le in H0, H1. lra.
Qed.

(** The settled detector on a fix within the radius of [windowFix]. *)
Lemma check_settled_within (elapsed : Z) (label : string) (newLocation : LocationData) :
  (distanceFrom windowFix newLocation <= LOCATION_RADIUS)%R ->
  checkForSignificantLocationChange (envAt elapsed label) newLocation settledWorld =
  if STATIONARY_THRESHOLD <=? elapsed then
    if hasLocationNameChanged homeLabel label then
      mkCheckResult true NewSignificantLocation (setLocationName label newLocation)
        (markSignificant (scenarioStart + elapsed + 1)
                         (setLocationName label newLocation) settledWorld)
    else mkCheckResult false SameLocation (setLocationName label newLocation) settledWorld
  else mkCheckResult false NotStationaryLongEnough newLocation settledWorld.
Proof.
  intros H.
  rewrite (check_within_radius _ _ _ homeStay windowFix) by (reflexivity || exact H).
  change (truthyTime (stationaryStartTime (service settledWorld)))
    with (Some scenarioStart).
  change (afterLoad settledWorld) with settledWorld.
  cbv beta iota zeta.
  replace (now (envAt elapsed label) - scenarioStart) with elapsed
    by (unfold envAt; simpl; lia).
  reflexivity.
Qed.

(** ** The reference fix of the radius check *)

(** The world a call within the radius leaves still knows a last
    significant location and holds the same reference fix. *)
Lemma within_radius_world (env : Env) (newLocation : LocationData) (w : World)
    (s lastUpdate : LocationData) :
  knownSignificant w = Some s ->
  lastLocationUpdate (service w) = Some lastUpdate ->
  (distanceFrom lastUpdate newLocation <= LOCATION_RADIUS)%R ->
  let w' := world (checkForSignificantLocationChange env newLocation w) in
  lastLocationUpdate (service w') = Some lastUpdate /\
  exists s', knownSignificant w' = Some s'.
Proof.
  intros Hs Hu Hd. rewrite (check_within_radius _ _ _ s lastUpdate) by assumption.
  assert (Hk : knownSignificant (afterLoad w) = Some s).
  { unfold knownSignificant in *.
    rewrite (afterLoad_in_memory (afterLoad w) s) by exact Hs. exact Hs. }
  assert (Hl : lastLocationUpdate (service (afterLoad w)) = Some lastUpdate)
    by (rewrite afterLoad_update; exact Hu).
  destruct (truthyTime _); [| simpl; eauto].
  destruct (_ <=? _); [| simpl; eauto].
  cbv zeta. destruct (hasLocationNameChanged _ _); simpl; [| eauto].
  split; [exact Hl | eexists; reflexivity].
Qed.

(** C2, as the code has it. Once a last significant location is known, a
    fix at most 100 m from the stored reference fix leaves that reference
    in place: the next fix is again measured against it, and is taken as
    movement as soon as it is more than 100 m from it, however close it is
    to the fix before. *)
Theorem within_radius_reference_fix_is_kept :
  forall (env : Env) (newLocation : LocationData) (w : World)
         (s lastUpdate : LocationData),
    knownSignificant w = Some s ->
    lastLocationUpdate (service w) = Some lastUpdate ->
    (distanceFrom lastUpdate newLocation <= LOCATION_RADIUS)%R ->
    lastLocationUpdate
      (service (world (checkForSignificantLocationChange env newLocation w)))
    = Some lastUpdate /\
    forall (env' : Env) (next : LocationData),
      (distanceFrom lastUpdate next > LOCATION_RADIUS)%R ->
      let r := checkForSignificantLocationChange env' next
                 (world (checkForSignificantLocationChange env newLocation w)) in
      branch r = MovedSignificantly /\
      stationaryStartTime (service (world r)) = Some (now env').
Proof.
  intros env newLocation w s lastUpdate Hs Hu Hd.
  destruct (within_radius_world env newLocation w s lastUpdate Hs Hu Hd)
    as (Hkept & s' & Hs').
  split; [exact Hkept |].
  intros env' next Hfar.
  rewrite (check_moved env' next _ s' lastUpdate Hs' Hkept Hfar).
  split; reflexivity.
Qed.

Definition driftFix1 : LocationData := fixNorth 7 "2023-11-14T22:14:20.000Z".
Definition driftFix2 : LocationData := fixNorth 14 "2023-11-14T22:15:20.000Z".

Lemma within_radius_reference_fix_is_kept_witness :
  lastLocationUpdate
    (service (world (checkForSignificantLocationChange
                       (envAt 60000 homeLabel) driftFix1 settledWorld)))
  = Some windowFix /\
  forall (env' : Env) (next : LocationData),
    (distanceFrom windowFix next > LOCATION_RADIUS)%R ->
    let r := checkForSignificantLocationChange env' next
               (world (checkForSignificantLocationChange
                         (envAt 60000 homeLabel) driftFix1 settledWorld)) in
    branch r = MovedSignificantly /\
    stationaryStartTime (service (world r)) = Some (now env').
Proof.
  apply (within_radius_reference_fix_is_kept
           (envAt 60000 homeLabel) driftFix1 settledWorld homeStay windowFix).
  - reflexivity.
  - reflexivity.
  - apply distanceFrom_windowFix_north. lia.
Defined.

(** C2, the counterexample: a slow drift north along a meridian, one fix a
    minute. The first fix is within the radius of the reference fix, and
    the detector does not take it as its new reference. The second fix is
    within the radius of the first, and more than 100 m from the
    reference: the detector sees movement and restarts the stationary
    timer. *)
Lemma slow_drift_restarts_the_timer :
  (distanceFrom windowFix driftFix1 <= LOCATION_RADIUS)%R /\
  lastLocationUpdate
    (service (world (checkForSignificantLocationChange
                       (envAt 60000 homeLabel) driftFix1 settledWorld)))
  <> Some driftFix1 /\
  (distanceFrom driftFix1 driftFix2 <= LOCATION_RADIUS)%R /\
  branch (checkForSignificantLocationChange (envAt 120000 homeLabel) driftFix2
            (world (checkForSignificantLocationChange
                      (envAt 60000 homeLabel) driftFix1 settledWorld)))
  = MovedSignificantly /\
  stationaryStartTime
    (service (world (checkForSignificantLocationChange
                       (envAt 120000 homeLabel) driftFix2
                       (world (checkForSignificantLocationChange
                                 (envAt 60000 homeLabel) driftFix1 settledWorld)))))
  = Some (scenarioStart + 120000).
Proof.
  assert (H1 : (distanceFrom windowFix driftFix1 <= LOCATION_RADIUS)%R)
    by (apply distanceFrom_windowFix_north; lia).
  assert (H2 : (distanceFrom windowFix driftFix2 > LOCATION_RADIUS)%R).
  { unfold distanceFrom. simpl. apply meridian_beyond_radius. lra. }
  destruct (within_radius_world
              (envAt 60000 homeLabel) driftFix1 settledWorld homeStay windowFix
              eq_refl eq_refl H1) as (Hkept & s' & Hs').
  split; [exact H1 |]. split.
  - rewrite Hkept. intros E. injection E as E. simpl in E. lra.
  - split.
    + unfold distanceFrom. simpl. apply meridian_within_radius. lra.
    + rewrite (check_moved (envAt 120000 homeLabel) driftFix2 _ s' windowFix Hs' Hkept H2).
      split; reflexivity.
Qed.

(** ** A candidate rejected as the same place *)

(** How a call ends in the branch [SameLocation]. *)
Lemma check_same_location_inv (env : Env) (newLocation : LocationData) (w : World) :
  branch (checkForSignificantLocationChange env newLocation w) = SameLocation ->
  exists (s lastUpdate : LocationData) (start : Z),
    knownSignificant w = Some s /\
    lastLocationUpdate (service w) = Some lastUpdate /\
    truthyTime (stationaryStartTime (service w)) = Some start /\
    (distanceFrom lastUpdate newLocation <= LOCATION_RADIUS)%R /\
    STATIONARY_THRESHOLD <= now env - start /\
    hasLocationNameChanged
      (JsString.or_else (default "" (locationName s)) "") (geocoded env) = false /\
    checkForSignificantLocationChange env newLocation w =
    mkCheckResult false SameLocation (setLocationName (geocoded env) newLocation)
                  (afterLoad w).
Proof.
  destruct (knownSignificant w) as [s |] eqn:Hs.
  2: { rewrite check_first_location_ever by exact Hs. discriminate. }
  destruct (lastLocationUpdate (service w)) as [lastUpdate |] eqn:Hu.
  2: { rewrite (check_starting_tracking _ _ _ s) by assumption. discriminate. }
  destruct (Rgt_dec (distanceFrom lastUpdate newLocation) LOCATION_RADIUS) as [Hfar | Hnear].
  { rewrite (check_moved _ _ _ s lastUpdate) by assumption. discriminate. }
  assert (Hd : (distanceFrom lastUpdate newLocation <= LOCATION_RADIUS)%R) by lra.
  rewrite (check_within_radius _ _ _ s lastUpdate) by assumption.
  destruct (truthyTime _) as [start |]; [| discriminate].
  destruct (STATIONARY_THRESHOLD <=? now env - start) eqn:Ht; [| discriminate].
  cbv zeta. destruct (hasLocationNameChanged _ _) eqn:Hc; [discriminate |].
  intros _. exists s, lastUpdate, start.
  apply Z.leb_le in Ht. repeat split; auto.
Qed.

(** C3, as the code has it. When a ripe candidate is rejected as the same
    place as the last significant location, the call answers [false] and
    changes nothing: no location is saved and the stationary clock keeps
    its start, so every later fix within the radius is labelled and
    classified again. *)
Theorem rejection_keeps_the_stationary_clock :
  forall (env : Env) (newLocation : LocationData) (w : World),
    branch (checkForSignificantLocationChange env newLocation w) = SameLocation ->
    let r := checkForSignificantLocationChange env newLocation w in
    significant r = false /\
    world r = afterLoad w /\
    stationaryStartTime (service (world r)) = stationaryStartTime (service w) /\
    lastLocationUpdate (service (world r)) = lastLocationUpdate (service w) /\
    storage (world r) = storage w /\
    forall (env' : Env) (next : LocationData) (lastUpdate : LocationData),
      now env <= now env' ->
      lastLocationUpdate (service w) = Some lastUpdate ->
      (distanceFrom lastUpdate next <= LOCATION_RADIUS)%R ->
      branch (checkForSignificantLocationChange env' next (world r)) = SameLocation \/
      branch (checkForSignificantLocationChange env' next (world r))
      = NewSignificantLocation.
Proof.
  intros env newLocation w H.
  destruct (check_same_location_inv env newLocation w H)
    as (s & lu & start & Hs & Hu & Hstart & Hd & Ht & Hc & E).
  cbv zeta. rewrite E. simpl.
  split; [reflexivity |]. split; [reflexivity |].
  split; [apply afterLoad_start |]. split; [apply afterLoad_update |].
  split; [apply afterLoad_storage |].
  intros env' next lastUpdate Hlater Hu' Hnear.
  assert (Hk : knownSignificant (afterLoad w) = Some s).
  { unfold knownSignificant in *.
    rewrite (afterLoad_in_memory (afterLoad w) s) by exact Hs. exact Hs. }
  rewrite (check_within_radius env' next (afterLoad w) s lastUpdate Hk)
    by (rewrite ?afterLoad_update; assumption).
  rewrite afterLoad_start, Hstart.
  assert (Hripe : (STATIONARY_THRESHOLD <=? now env' - start) = true)
    by (apply Z.leb_le; lia).
  rewrite Hripe. cbv zeta.
  destruct (hasLocationNameChanged _ (geocoded env')); simpl; auto.
Qed.

(** Five minutes into the window, still at the place of [windowFix]. *)
Definition stillHomeFix : LocationData := fixNorth 0 "2023-11-14T22:18:20.000Z".
Definition stillHomeFix' : LocationData := fixNorth 0 "2023-11-14T22:23:20.000Z".

Lemma settled_rejects_home :
  checkForSignificantLocationChange (envAt 300000 homeLabel) stillHomeFix settledWorld
  = mkCheckResult false SameLocation (setLocationName homeLabel stillHomeFix) settledWorld.
Proof.
  rewrite check_settled_within by (apply distanceFrom_windowFix_north; lia).
  reflexivity.
Qed.

Lemma rejection_keeps_the_stationary_clock_witness :
  branch (checkForSignificantLocationChange
            (envAt 300000 homeLabel) stillHomeFix settledWorld) = SameLocation /\
  let r := checkForSignificantLocationChange
             (envAt 300000 homeLabel) stillHomeFix settledWorld in
  significant r = false /\
  world r = afterLoad settledWorld /\
  stationaryStartTime (service (world r)) = stationaryStartTime (service settledWorld) /\
  lastLocationUpdate (service (world r)) = lastLocationUpdate (service settledWorld) /\
  storage (world r) = storage settledWorld /\
  forall (env' : Env) (next : LocationData) (lastUpdate : LocationData),
    now (envAt 300000 homeLabel) <= now env' ->
    lastLocationUpdate (service settledWorld) = Some lastUpdate ->
    (distanceFrom lastUpdate next <= LOCATION_RADIUS)%R ->
    branch (checkForSignificantLocationChange env' next (world r)) = SameLocation \/
    branch (checkForSignificantLocationChange env' next (world r))
    = NewSignificantLocation.
Proof.
  assert (H : branch (checkForSignificantLocationChange
                        (envAt 300000 homeLabel) stillHomeFix settledWorld)
              = SameLocation)
    by (rewrite settled_rejects_home; reflexivity).
  split; [exact H |].
  apply (rejection_keeps_the_stationary_clock
           (envAt 300000 homeLabel) stillHomeFix settledWorld H).
Defined.

(** C3, the counterexample: the settled detector, five minutes into its
    window, is given a fix at the same place with the label of the last
    significant location. The candidate is rejected and the stationary
    clock still starts at [scenarioStart], not at the time of the call;
    five minutes later the next fix is labelled and rejected again. *)
Lemma rejection_does_not_reset_the_clock :
  branch (checkForSignificantLocationChange
            (envAt 300000 homeLabel) stillHomeFix settledWorld) = SameLocation /\
  stationaryStartTime
    (service (world (checkForSignificantLocationChange
                       (envAt 300000 homeLabel) stillHomeFix settledWorld)))
  = Some scenarioStart /\
  Some scenarioStart <> Some (now (envAt 300000 homeLabel)) /\
  branch (checkForSignificantLocationChange (envAt 600000 homeLabel) stillHomeFix'
            (world (checkForSignificantLocationChange
                      (envAt 300000 homeLabel) stillHomeFix settledWorld)))
  = SameLocation.
Proof.
  rewrite settled_rejects_home. simpl.
  split; [reflexivity |]. split; [reflexivity |]. split; [discriminate |].
  rewrite check_settled_within by (apply distanceFrom_windowFix_north; lia).
  reflexivity.
Qed.

(** ** Restart *)

(** What memory holds as last significant location is what storage holds:
    the detector saves it whenever it sets it. *)
Definition consistent (w : World) : Prop :=
  forall s : LocationData,
    lastSignificantLocation (service w) = Some s ->
    last_significant_location (storage w) = Some s.

Lemma consistent_fresh : consistent freshWorld.
Proof. intros s H. discriminate. Qed.

Lemma consistent_restart (w : World) : consistent (restart w).
Proof. intros s H. discriminate. Qed.

Lemma consistent_afterLoad (w : World) : consistent w -> consistent (afterLoad w).
Proof.
  intros Hc s. unfold afterLoad, loadLastSignificantLocation.
  destruct (lastSignificantLocation (service w)) eqn:E; [apply Hc |].
  destruct (last_significant_location (storage w)) eqn:E'; simpl.
  - rewrite E'. auto.
  - rewrite E. discriminate.
Qed.

Lemma consistent_check (env : Env) (newLocation : LocationData) (w : World) :
  consistent w ->
  consistent (world (checkForSignificantLocationChange env newLocation w)).
Proof.
  intros Hc. apply consistent_afterLoad in Hc.
  unfold checkForSignificantLocationChange. fold (afterLoad w).
  destruct (lastSignificantLocation (service (afterLoad w))) eqn:Hs; [| exact Hc].
  destruct (lastLocationUpdate (service (afterLoad w))); [| exact Hc].
  destruct (Rgt_dec _ _); [exact Hc |].
  destruct (truthyTime _); [| exact Hc].
  destruct (Rle_dec _ _); [| exact Hc].
  destruct (_ <=? _); [| exact Hc].
  cbv zeta. destruct (hasLocationNameChanged _ _); [| exact Hc].
  intros s H. exact H.
Qed.

Lemma knownSignificant_restart (w : World) :
  knownSignificant (restart w) = last_significant_location (storage w).
Proof.
  unfold knownSignificant, afterLoad, restart, loadLastSignificantLocation. simpl.
  destruct (last_significant_location (storage w)); reflexivity.
Qed.

Lemma knownSignificant_consistent (w : World) :
  consistent w -> knownSignificant w = last_significant_location (storage w).
Proof.
  intros Hc. unfold knownSignificant, afterLoad, loadLastSignificantLocation.
  destruct (lastSignificantLocation (service w)) as [s |] eqn:E.
  - rewrite E. symmetry. apply Hc. exact E.
  - destruct (last_significant_location (storage w)); [reflexivity | exact E].
Qed.

(** C4, as the code has it. Of the detector's state only the last
    significant location is persisted: after a restart the next call
    knows the same last significant location as before, while the
    reference fix and the start of the stationary clock are gone, so the
    first fix after a restart opens a new stationary window. *)
Theorem restart_recovers_last_significant_location_only :
  forall w : World,
    consistent w ->
    knownSignificant (restart w) = knownSignificant w /\
    storage (restart w) = storage w /\
    lastLocationUpdate (service (afterLoad (restart w))) = None /\
    stationaryStartTime (service (afterLoad (restart w))) = None /\
    forall (env : Env) (newLocation : LocationData),
      significant (checkForSignificantLocationChange env newLocation (restart w))
      = false /\
      stationaryStartTime
        (service (world (checkForSignificantLocationChange env newLocation (restart w))))
      = Some (now env).
Proof.
  intros w Hc.
  split; [rewrite knownSignificant_restart, knownSignificant_consistent; auto |].
  split; [reflexivity |].
  split; [rewrite afterLoad_update; reflexivity |].
  split; [rewrite afterLoad_start; reflexivity |].
  intros env newLocation.
  destruct (knownSignificant (restart w)) as [s |] eqn:Hs.
  - rewrite (check_starting_tracking _ _ _ s Hs) by reflexivity. split; reflexivity.
  - rewrite (check_first_location_ever _ _ _ Hs). split; reflexivity.
Qed.

Lemma consistent_settled : consistent settledWorld.
Proof. intros s H. exact H. Defined.

Lemma restart_recovers_last_significant_location_only_witness :
  consistent settledWorld /\
  knownSignificant (restart settledWorld) = knownSignificant settledWorld /\
  storage (restart settledWorld) = storage settledWorld /\
  lastLocationUpdate (service (afterLoad (restart settledWorld))) = None /\
  stationaryStartTime (service (afterLoad (restart settledWorld))) = None /\
  forall (env : Env) (newLocation : LocationData),
    significant (checkForSignificantLocationChange env newLocation (restart settledWorld))
    = false /\
    stationaryStartTime
      (service (world (checkForSignificantLocationChange env newLocation
                         (restart settledWorld))))
    = Some (now env).
Proof.
  split; [exact consistent_settled |].
  apply (restart_recovers_last_significant_location_only settledWorld).
  exact consistent_settled.
Defined.

Lemma home_office_differ : hasLocationNameChanged homeLabel officeLabel = true.
Proof. vm_compute. reflexivity. Qed.

(** C4, the counterexample: the settled detector is restarted five
    minutes into a stationary window. The restored service is not the one
    before the restart: the reference fix and the stationary clock are
    gone. Without the restart, a fix labelled as another place is
    confirmed at once; after it, the same fix only opens a new window. *)
Lemma restart_loses_the_stationary_window :
  service (afterLoad (restart settledWorld)) <> service settledWorld /\
  lastLocationUpdate (service settledWorld) = Some windowFix /\
  stationaryStartTime (service settledWorld) = Some scenarioStart /\
  lastLocationUpdate (service (afterLoad (restart settledWorld))) = None /\
  stationaryStartTime (service (afterLoad (restart settledWorld))) = None /\
  significant (checkForSignificantLocationChange
                 (envAt 300000 officeLabel) stillHomeFix settledWorld) = true /\
  checkForSignificantLocationChange
    (envAt 300000 officeLabel) stillHomeFix (restart settledWorld)
  = mkCheckResult false StartingTracking stillHomeFix
      (startWindow (scenarioStart + 300000) stillHomeFix (afterLoad (restart settledWorld))).
Proof.
  split; [intros E; apply (f_equal lastLocationUpdate) in E; discriminate |].
  do 4 (split; [reflexivity |]).
  split.
  - rewrite check_settled_within by (apply distanceFrom_windowFix_north; lia).
    rewrite home_office_differ. reflexivity.
  - rewrite (check_starting_tracking _ _ _ homeStay) by reflexivity. reflexivity.
Qed.

(** ** Retention of the daily store *)

Section Retention.

Variable toISOString : Z -> string.
Variable parseDate : string -> option Z.

Let save := saveSignificantLocation toISOString parseDate.
Let load := loadSignificantLocations toISOString.
Let day := isoDay toISOString.

(** The list an append leaves under the key of its day. *)
Lemma load_after_save (today nowMs : Z) (location : LocationData) (st : AsyncStorage) :
  load today (save today nowMs location st) =
  List.filter (newerThan parseDate (nowMs - 24 * 60 * 60 * 1000))
              (load today st ++ [location]).
Proof.
  unfold load, save, loadSignificantLocations, saveSignificantLocation. simpl.
  rewrite lookup_insert_eq. reflexivity.
Qed.

(** The lists of the other days are not touched. *)
Lemma load_other_day (today nowMs date : Z) (location : LocationData)
    (st : AsyncStorage) :
  day date <> day today ->
  load date (save today nowMs location st) = load date st.
Proof.
  intros Hne.
  unfold load, save, loadSignificantLocations, saveSignificantLocation. simpl.
  rewrite lookup_insert_ne by (intros E; apply Hne; symmetry; exact E).
  reflexivity.
Qed.

Lemma newerThan_spec (oneDayAgo : Z) (loc : LocationData) :
  newerThan parseDate oneDayAgo loc = true <->
  exists t : Z, parseDate (timestamp loc) = Some t /\ oneDayAgo < t.
Proof.
  unfold newerThan. destruct (parseDate (timestamp loc)) as [t |].
  - rewrite Z.ltb_lt. split.
    + intros H. exists t. auto.
    + intros (t' & E & H). injection E as <-. exact H.
  - split; [discriminate | intros (t & E & _); discriminate].
Qed.

(** C6. After an append, the list of that day is the old list with the
    new stay, filtered: every stay a load of that day returns is dated
    less than 24 hours before the append's [Date.now()], so none of them
    is older than 24 hours; the lists of the other days are as they
    were. *)
Theorem append_keeps_only_the_last_24_hours :
  forall (today nowMs : Z) (location : LocationData) (st : AsyncStorage),
    (forall (date : Z) (loc : LocationData),
        day date = day today ->
        loc ∈ load date (save today nowMs location st) ->
        exists t : Z,
          parseDate (timestamp loc) = Some t /\ nowMs - 86400000 < t) /\
    (forall (date : Z) (loc : LocationData) (t : Z),
        day date = day today ->
        parseDate (timestamp loc) = Some t ->
        t < nowMs - 86400000 ->
        loc ∉ load date (save today nowMs location st)) /\
    (forall date : Z,
        day date <> day today ->
        load date (save today nowMs location st) = load date st).
Proof.
  intros today nowMs location st.
  assert (Hin : forall (date : Z) (loc : LocationData),
             day date = day today ->
             loc ∈ load date (save today nowMs location st) ->
             exists t : Z,
               parseDate (timestamp loc) = Some t /\ nowMs - 86400000 < t).
  { intros date loc Hday H.
    replace (load date (save today nowMs location st))
      with (load today (save today nowMs location st)) in H
      by (unfold load, loadSignificantLocations; fold (day date) (day today);
          rewrite Hday; reflexivity).
    rewrite load_after_save in H.
    apply list_elem_of_In, filter_In in H as [_ H].
    apply newerThan_spec in H as (t & E & Ht). exists t. split; [exact E | lia]. }
  split; [exact Hin |]. split.
  - intros date loc t Hday E Hold Hmem.
    destruct (Hin date loc Hday Hmem) as (t' & E' & Ht'). rewrite E in E'.
    injection E' as <-. lia.
  - intros date. apply load_other_day.
Qed.

(** A stay that is recent enough and was in the list stays in it. *)
Lemma append_keeps_recent (today nowMs : Z) (location loc : LocationData)
    (st : AsyncStorage) (t : Z) :
  loc ∈ load today st ->
  parseDate (timestamp loc) = Some t ->
  nowMs - 86400000 < t ->
  loc ∈ load today (save today nowMs location st).
Proof.
  intros Hmem E Ht. rewrite load_after_save.
  apply list_elem_of_In, filter_In. split.
  - apply in_or_app. left. apply list_elem_of_In. exact Hmem.
  - apply newerThan_spec. exists t. split; [exact E | lia].
Qed.

End Retention.

(** ** Timeline merge *)

Section Merge.

Import Modal.
Local Open Scope nat_scope.

Implicit Types entries : list EditableLocationEntry.
Implicit Types locationHistory : list LocationData.

Lemma reindex_length entries : length (reindex entries) = length entries.
Proof. apply length_imap. Qed.

Lemma reindex_lookup entries (i : nat) :
  reindex entries !! i = withOrder i <$> entries !! i.
Proof. apply list_lookup_imap. Qed.

(** Re-indexing gives the positions [0, 1, ..., n-1]. *)
Lemma reindex_dense entries : dense (reindex entries).
Proof.
  unfold dense, reindex. rewrite fmap_imap, length_imap.
  rewrite (imap_ext _ (fun j _ => j)) by reflexivity.
  rewrite (imap_seq_0 entries (fun j => j)). apply list_fmap_id.
Qed.

(** Re-indexing changes positions only. *)
Lemma reindex_timestamps entries :
  timestamp <$> reindex entries = timestamp <$> entries.
Proof.
  unfold reindex. rewrite fmap_imap.
  rewrite (imap_ext _ (const timestamp)) by reflexivity.
  apply imap_const.
Qed.

Lemma withOrder_same (e : EditableLocationEntry) : withOrder (order e) e = e.
Proof. destruct e. reflexivity. Qed.

(** A dense list is its own re-indexing. *)
Lemma reindex_of_dense entries : dense entries -> reindex entries = entries.
Proof.
  intros Hd. apply list_eq. intros i. rewrite reindex_lookup.
  destruct (entries !! i) as [e |] eqn:E; [| reflexivity].
  simpl. f_equal.
  assert (Ho : (order <$> entries) !! i = Some (order e))
    by (rewrite list_lookup_fmap, E; reflexivity).
  rewrite Hd in Ho.
  apply lookup_seq in Ho as [Ho _]. simpl in Ho. rewrite <- Ho.
  apply withOrder_same.
Qed.

Lemma handleAdd_unfold locationHistory entries :
  handleAddFromLocationHistory locationHistory entries =
  match uniqueNewEntries locationHistory entries with
  | [] => entries
  | _ :: _ => reindex (entries ++ uniqueNewEntries locationHistory entries)
  end.
Proof.
  unfold handleAddFromLocationHistory.
  destruct (uniqueNewEntries locationHistory entries); reflexivity.
Qed.

(** Which incoming stays survive: those whose timestamp is the
    timestamp of no existing entry. *)
Lemma uniqueNewEntries_spec locationHistory entries (e : EditableLocationEntry) :
  e ∈ uniqueNewEntries locationHistory entries <->
  exists (i : nat) (location : LocationData),
    locationHistory !! i = Some location /\
    e = fromLocation (length entries) i location /\
    Some (location_timestamp location) ∉ (timestamp <$> entries).
Proof.
  unfold uniqueNewEntries.
  rewrite list_elem_of_In, filter_In, <- list_elem_of_In, elem_of_lookup_imap.
  unfold isNew. rewrite negb_true_iff, bool_decide_eq_false. split.
  - intros [(i & location & -> & Hl) Hnew]. exists i, location. auto.
  - intros (i & location & Hl & -> & Hnew). split; [| exact Hnew].
    exists i, location. auto.
Qed.

(** The result without assuming anything of the positions found: the
    handler re-indexes only when it has something to add. *)
Lemma handleAdd_cases locationHistory entries :
  (uniqueNewEntries locationHistory entries = [] /\
   handleAddFromLocationHistory locationHistory entries = entries) \/
  (uniqueNewEntries locationHistory entries <> [] /\
   handleAddFromLocationHistory locationHistory entries =
   reindex (entries ++ uniqueNewEntries locationHistory entries)).
Proof.
  rewrite handleAdd_unfold.
  destruct (uniqueNewEntries locationHistory entries); [left | right]; auto.
Qed.

Lemma handleAdd_of_dense locationHistory entries :
  dense entries ->
  handleAddFromLocationHistory locationHistory entries =
  reindex (entries ++ uniqueNewEntries locationHistory entries).
Proof.
  intros Hd.
  destruct (handleAdd_cases locationHistory entries) as [[E ->] | [_ ->]];
    [| reflexivity].
  rewrite E, app_nil_r. symmetry. apply reindex_of_dense. exact Hd.
Qed.

(** The states the modal can hold are dense. *)
Lemma dense_nil : dense [].
Proof. reflexivity. Qed.

Lemma loadLocationHistory_dense
    (existingEntries : list Feed.TimelineEntry) locationHistory :
  dense (loadLocationHistory existingEntries locationHistory).
Proof.
  unfold loadLocationHistory, dense.
  destruct (0 <? length existingEntries)%nat; rewrite fmap_imap, length_imap.
  - rewrite (imap_ext _ (fun j _ => j)) by reflexivity.
    rewrite (imap_seq_0 existingEntries (fun j => j)). apply list_fmap_id.
  - rewrite (imap_ext _ (fun j _ => j)) by reflexivity.
    rewrite (imap_seq_0 locationHistory (fun j => j)). apply list_fmap_id.
Qed.

Lemma handleDeleteEntry_dense (index : nat) entries :
  dense (handleDeleteEntry index entries).
Proof. apply reindex_dense. Qed.

Lemma merge_dense_and_prefix locationHistory entries :
  dense entries ->
  handleAddFromLocationHistory locationHistory entries
  = reindex (entries ++ uniqueNewEntries locationHistory entries) /\
  dense (handleAddFromLocationHistory locationHistory entries) /\
  (forall (i : nat) (e : EditableLocationEntry),
      entries !! i = Some e ->
      handleAddFromLocationHistory locationHistory entries !! i = Some e) /\
  (forall (j : nat) (e : EditableLocationEntry),
      uniqueNewEntries locationHistory entries !! j = Some e ->
      handleAddFromLocationHistory locationHistory entries !! (length entries + j)
      = Some (withOrder (length entries + j) e)).
Proof.
  intros Hd. rewrite handleAdd_of_dense by exact Hd.
  split; [reflexivity |]. split; [apply reindex_dense |]. split.
  - intros i e He. rewrite reindex_lookup, lookup_app_l, He
      by (apply lookup_lt_Some in He; exact He).
    simpl. f_equal.
    assert (Ho : (order <$> entries) !! i = Some (order e))
      by (rewrite list_lookup_fmap, He; reflexivity).
    rewrite Hd in Ho. apply lookup_seq in Ho as [Ho _]. simpl in Ho.
    rewrite <- Ho. apply withOrder_same.
  - intros j e He. rewrite reindex_lookup, lookup_app_r by lia.
    replace (length entries + j - length entries)%nat with j by lia.
    rewrite He. reflexivity.
Qed.

(** C7. Merging the day's stored stays into a timeline the modal holds
    (its positions are dense): an incoming stay is dropped exactly when
    its timestamp is the timestamp of an existing entry; the others are
    appended after the existing entries, in order; the result is
    re-indexed and its positions are [0, 1, ..., n-1]; the existing
    entries are found unchanged at their positions. *)
Theorem merge_drops_duplicates_appends_and_reindexes :
  forall locationHistory entries,
    dense entries ->
    (forall e : EditableLocationEntry,
        e ∈ uniqueNewEntries locationHistory entries <->
        exists (i : nat) (location : LocationData),
          locationHistory !! i = Some location /\
          e = fromLocation (length entries) i location /\
          Some (location_timestamp location) ∉ (timestamp <$> entries)) /\
    uniqueNewEntries locationHistory entries
    = List.filter (isNew (timestamp <$> entries))
                  (imap (fromLocation (length entries)) locationHistory) /\
    handleAddFromLocationHistory locationHistory entries
    = reindex (entries ++ uniqueNewEntries locationHistory entries) /\
    dense (handleAddFromLocationHistory locationHistory entries) /\
    (forall (i : nat) (e : EditableLocationEntry),
        entries !! i = Some e ->
        handleAddFromLocationHistory locationHistory entries !! i = Some e) /\
    (forall (j : nat) (e : EditableLocationEntry),
        uniqueNewEntries locationHistory entries !! j = Some e ->
        handleAddFromLocationHistory locationHistory entries !! (length entries + j)
        = Some (withOrder (length entries + j) e)).
Proof.
  intros locationHistory entries Hd.
  split; [intros e; apply uniqueNewEntries_spec |].
  split; [reflexivity |].
  apply merge_dense_and_prefix. exact Hd.
Qed.

(** After a merge every incoming timestamp is the timestamp of an entry. *)
Lemma merged_covers_incoming locationHistory entries (i : nat)
    (location : LocationData) :
  locationHistory !! i = Some location ->
  Some (location_timestamp location)
  ∈ (timestamp <$> handleAddFromLocationHistory locationHistory entries).
Proof.
  intros Hl.
  destruct (decide (Some (location_timestamp location) ∈ (timestamp <$> entries)))
    as [Hin | Hnew].
  - destruct (handleAdd_cases locationHistory entries) as [[_ ->] | [_ ->]];
      [exact Hin |].
    rewrite reindex_timestamps, fmap_app. apply elem_of_app. left. exact Hin.
  - assert (Hu : fromLocation (length entries) i location
                 ∈ uniqueNewEntries locationHistory entries)
      by (apply uniqueNewEntries_spec; exists i, location; auto).
    destruct (handleAdd_cases locationHistory entries) as [[E _] | [_ ->]].
    + rewrite E in Hu. apply not_elem_of_nil in Hu. contradiction.
    + rewrite reindex_timestamps, fmap_app. apply elem_of_app. right.
      apply list_elem_of_fmap. eexists. split; [| exact Hu]. reflexivity.
Qed.

Lemma merge_again_adds_nothing locationHistory entries :
  uniqueNewEntries locationHistory
    (handleAddFromLocationHistory locationHistory entries) = [].
Proof.
  destruct (uniqueNewEntries _ (handleAddFromLocationHistory _ _))
    as [| e rest] eqn:E; [reflexivity |].
  assert (He : e ∈ uniqueNewEntries locationHistory
                 (handleAddFromLocationHistory locationHistory entries))
    by (rewrite E; apply list_elem_of_here).
  apply uniqueNewEntries_spec in He as (i & location & Hl & _ & Hnew).
  exfalso. apply Hnew. apply merged_covers_incoming with i. exact Hl.
Qed.

(** C8. Merging an empty list of stays leaves the timeline as it is,
    and merging the same stays a second time changes nothing: the second
    merge adds no entry, so no timestamp is repeated by it. *)
Theorem merge_identity_and_idempotent :
  forall locationHistory entries,
    handleAddFromLocationHistory [] entries = entries /\
    handleAddFromLocationHistory locationHistory
      (handleAddFromLocationHistory locationHistory entries)
    = handleAddFromLocationHistory locationHistory entries /\
    uniqueNewEntries locationHistory
      (handleAddFromLocationHistory locationHistory entries) = [].
Proof.
  intros locationHistory entries. split; [reflexivity |].
  split; [| apply merge_again_adds_nothing].
  rewrite (handleAdd_unfold locationHistory
             (handleAddFromLocationHistory locationHistory entries)).
  rewrite merge_again_adds_nothing. reflexivity.
Qed.

End Merge.

(** A timeline of one entry and a day of two stored stays, the first of
    which the timeline already has. *)
Definition sampleTimeline : list Modal.EditableLocationEntry :=
  [ {| Modal.id := Some 1%nat;
       Modal.locationName := "Home";
       Modal.timestamp := Some "2023-11-14T08:00:00.000Z";
       Modal.latitude := Some 40%R;
       Modal.longitude := Some (-74)%R;
       Modal.icon := Some "🏠";
       Modal.order := 0;
       Modal.isEditing := false |} ].

Definition sampleHistory : list LocationData :=
  [ {| latitude := 40; longitude := -74;
       timestamp := "2023-11-14T08:00:00.000Z";
       locationName := Some homeLabel |};
    {| latitude := 40 + 45 / 10000; longitude := -74;
       timestamp := "2023-11-14T09:30:00.000Z";
       locationName := Some officeLabel |} ].

Example sample_merge :
  Modal.handleAddFromLocationHistory sampleHistory sampleTimeline =
  (sampleTimeline ++
  [ {| Modal.id := None;
       Modal.locationName := officeLabel;
       Modal.timestamp := Some "2023-11-14T09:30:00.000Z";
       Modal.latitude := Some (40 + 45 / 10000)%R;
       Modal.longitude := Some (-74)%R;
       Modal.icon := Some "💼";
       Modal.order := 1;
       Modal.isEditing := false |} ])%list.
Proof. reflexivity. Qed.

Lemma merge_drops_duplicates_appends_and_reindexes_witness :
  Modal.dense sampleTimeline /\
  Modal.handleAddFromLocationHistory sampleHistory sampleTimeline
  = Modal.reindex (sampleTimeline ++ Modal.uniqueNewEntries sampleHistory sampleTimeline)%list /\
  Modal.dense (Modal.handleAddFromLocationHistory sampleHistory sampleTimeline).
Proof.
  split; [reflexivity |].
  pose proof (merge_drops_duplicates_appends_and_reindexes
                sampleHistory sampleTimeline eq_refl) as (_ & _ & H1 & H2 & _).
  exact (conj H1 H2).
Defined.

(** ** Saving an edited timeline *)

Section SaveTimeline.

Import Feed.
Local Open Scope nat_scope.

Implicit Types entries : list TimelineEntry.

(** What the validation accepts. *)
Definition accepted entries : Prop :=
  Forall (fun e => missingRequiredFields e = false) entries.

(** The second loop stops at the first entry that lacks a field: the
    entries before it have been written, and stay written. *)
Lemma createAll_stops_at_first_invalid
    (currentEntryId : nat) (valid rest : list TimelineEntry)
    (invalid : TimelineEntry) (db : Database) :
  accepted valid ->
  missingRequiredFields invalid = true ->
  createAll currentEntryId (valid ++ invalid :: rest) db =
  (fst (createAll currentEntryId valid db), Some validationError) /\
  snd (createAll currentEntryId valid db) = None /\
  length (timeline_entries (fst (createAll currentEntryId valid db)))
  = length (timeline_entries db) + length valid.
Proof.
  intros Hv Hi. revert db. induction Hv as [| e valid He Hv IH]; intros db.
  - simpl. rewrite Hi. repeat split; lia.
  - rewrite <- app_comm_cons. cbn [createAll]. rewrite He.
    match goal with
    | |- context [createAll _ valid ?d] => destruct (IH d) as (E1 & E2 & E3)
    end.
    split; [exact E1 |]. split; [exact E2 |].
    rewrite E3. simpl. rewrite length_app. simpl. lia.
Qed.

(** A stored timeline of one entry, shown on the screen. *)
Definition storedHome : TimelineEntry :=
  {| id := Some 1; dailyEntryId := 7; locationName := "Home";
     timestamp := Some "2023-11-14T08:00:00.000Z";
     latitude := None; longitude := None;
     icon := Some "🏠"; order := 0 |}.

Definition storedTable : Database :=
  {| timeline_entries := [storedHome]; lastRowId := 1 |}.

Definition screenTimelines : gmap nat (list TimelineEntry) := {[ 7 := [storedHome] ]}.

(** The batch the modal hands over: the stored entry, a second entry
    added from the day's locations, and a third whose name is empty (a
    place picked from the search whose details carry no name). The
    modal sends every entry with [dailyEntryId: 0] and without id. *)
Definition keptHome : TimelineEntry :=
  {| id := None; dailyEntryId := 0; locationName := "Home";
     timestamp := Some "2023-11-14T08:00:00.000Z";
     latitude := None; longitude := None;
     icon := Some "🏠"; order := 0 |}.

Definition newOffice : TimelineEntry :=
  {| id := None; dailyEntryId := 0; locationName := "Office";
     timestamp := Some "2023-11-14T09:30:00.000Z";
     latitude := None; longitude := None;
     icon := Some "💼"; order := 1 |}.

Definition newUnnamed : TimelineEntry :=
  {| id := None; dailyEntryId := 0; locationName := "";
     timestamp := Some "2023-11-14T12:00:00.000Z";
     latitude := None; longitude := None;
     icon := Some "📍"; order := 2 |}.

Definition editedBatch : list TimelineEntry :=
  [keptHome; newOffice; newUnnamed].

(** C9, the code at the failing input. The batch's third entry has no
    name. The save ends with the validation error, after the stored
    row has been deleted and the first two entries have been written
    anew: the table holds two of the three entries of the batch, and the
    row stored before (id 1) is gone. *)
Theorem save_with_invalid_entry_writes_part_of_the_batch :
  handleSaveTimeline (Some 7) screenTimelines editedBatch storedTable =
  ({| timeline_entries :=
        [ {| id := Some 2; dailyEntryId := 7; locationName := "Home";
             timestamp := Some "2023-11-14T08:00:00.000Z";
             latitude := None; longitude := None;
             icon := Some "🏠"; order := 0 |};
          {| id := Some 3; dailyEntryId := 7; locationName := "Office";
             timestamp := Some "2023-11-14T09:30:00.000Z";
             latitude := None; longitude := None;
             icon := Some "💼"; order := 1 |} ];
      lastRowId := 3 |},
   Some "Failed to save timeline: Timeline entry missing required fields"%string).
Proof. reflexivity. Qed.

(** The same batch without its invalid entry is saved whole. *)
Example save_valid_batch :
  snd (handleSaveTimeline (Some 7) screenTimelines [keptHome; newOffice] storedTable)
  = None.
Proof. reflexivity. Qed.

End SaveTimeline.

(** ** Reverse label lookup *)





Section ReverseLookupFacts.

Variable toFixed4 : R -> string.



End ReverseLookupFacts.


(** * Further properties of the code *)

(** ** The place-change comparison: what it ignores *)

Lemma partDiffers_sym (a b : list string) (i : nat) :
  partDiffers a b i = partDiffers b a i.
Proof.
  unfold partDiffers. f_equal. apply bool_decide_ext. split; congruence.
Qed.

(** X2. The answer does not depend on which label is the old one. *)
Theorem hasLocationNameChanged_symmetric :
  forall oldName newName : string,
    hasLocationNameChanged oldName newName = hasLocationNameChanged newName oldName.
Proof.
  intros oldName newName. unfold hasLocationNameChanged.
  rewrite (orb_comm (JsString.falsy oldName)).
  destruct (JsString.falsy newName || JsString.falsy oldName)%bool; [reflexivity |].
  rewrite !(partDiffers_sym (nameParts oldName) (nameParts newName)).
  rewrite (andb_comm (1 <? length (nameParts oldName))%nat).
  rewrite (andb_comm (2 <? length (nameParts oldName))%nat).
  reflexivity.
Qed.

Lemma take_lookup_eq (a b : list string) (n i : nat) :
  take n a = take n b -> (i < n)%nat -> a !! i = b !! i.
Proof.
  intros E Hi.
  rewrite <- (lookup_take_lt a n i), <- (lookup_take_lt b n i) by exact Hi.
  rewrite E. reflexivity.
Qed.

(** X3. Only the first three parts count: two non-empty labels whose first
    three parts agree are the same place, whatever follows them. *)
Theorem parts_after_the_third_are_ignored :
  forall a b : string,
    a <> "" -> b <> "" ->
    take 3 (nameParts a) = take 3 (nameParts b) ->
    hasLocationNameChanged a b = false.
Proof.
  intros a b Ha Hb E. unfold hasLocationNameChanged.
  apply falsy_false_spec in Ha, Hb. rewrite Ha, Hb. simpl.
  assert (H0 : partDiffers (nameParts a) (nameParts b) 0 = false)
    by (apply partDiffers_false, (take_lookup_eq _ _ 3); [exact E | lia]).
  assert (H1 : partDiffers (nameParts a) (nameParts b) 1 = false)
    by (apply partDiffers_false, (take_lookup_eq _ _ 3); [exact E | lia]).
  assert (H2 : partDiffers (nameParts a) (nameParts b) 2 = false)
    by (apply partDiffers_false, (take_lookup_eq _ _ 3); [exact E | lia]).
  rewrite H0, H1, H2, !andb_false_r. reflexivity.
Qed.

Lemma parts_after_the_third_are_ignored_witness :
  hasLocationNameChanged "Blue Bottle Cafe, Main St, Springfield, IL"
                         "blue bottle cafe,main st,springfield,Oregon,USA" = false.
Proof.
  apply parts_after_the_third_are_ignored.
  - discriminate.
  - discriminate.
  - vm_compute. reflexivity.
Defined.

(** X4. A label of one part is the same place as every label that starts with
    that part: a missing part matches anything. *)
Theorem one_part_label_matches_every_extension :
  forall a b : string,
    a <> "" -> b <> "" ->
    length (nameParts a) = 1%nat ->
    nameParts a !! 0%nat = nameParts b !! 0%nat ->
    hasLocationNameChanged a b = false.
Proof.
  intros a b Ha Hb Hlen E0. unfold hasLocationNameChanged.
  apply falsy_false_spec in Ha, Hb. rewrite Ha, Hb. simpl.
  apply partDiffers_false in E0. rewrite E0, Hlen. reflexivity.
Qed.

Lemma one_part_label_matches_every_extension_witness :
  hasLocationNameChanged "Springfield" "Springfield, Elm St, Shelbyville" = false.
Proof.
  apply one_part_label_matches_every_extension.
  - discriminate.
  - discriminate.
  - vm_compute. reflexivity.
  - vm_compute. reflexivity.
Defined.

(** So "the same place" is not transitive: two labels that differ can
    both be the same place as a shorter one. *)
Example same_place_not_transitive :
  hasLocationNameChanged "Springfield, Elm St" "Springfield" = false /\
  hasLocationNameChanged "Springfield" "Springfield, Oak St" = false /\
  hasLocationNameChanged "Springfield, Elm St" "Springfield, Oak St" = true.
Proof. vm_compute. auto. Qed.






(** ** The detector: when a location is confirmed *)

(** How a call ends with the answer [true]. *)
Lemma check_significant_inv (env : Env) (newLocation : LocationData) (w : World) :
  significant (checkForSignificantLocationChange env newLocation w) = true ->
  exists (s lastUpdate : LocationData) (start : Z),
    knownSignificant w = Some s /\
    lastLocationUpdate (service w) = Some lastUpdate /\
    truthyTime (stationaryStartTime (service w)) = Some start /\
    (distanceFrom lastUpdate newLocation <= LOCATION_RADIUS)%R /\
    STATIONARY_THRESHOLD <= now env - start /\
    hasLocationNameChanged
      (JsString.or_else (default "" (locationName s)) "") (geocoded env) = true /\
    checkForSignificantLocationChange env newLocation w =
    mkCheckResult true NewSignificantLocation
      (setLocationName (geocoded env) newLocation)
      (markSignificant (nowAfterSave env)
                       (setLocationName (geocoded env) newLocation) (afterLoad w)).
Proof.
  destruct (knownSignificant w) as [s |] eqn:Hs.
  2: { rewrite check_first_location_ever by exact Hs. discriminate. }
  destruct (lastLocationUpdate (service w)) as [lastUpdate |] eqn:Hu.
  2: { rewrite (check_starting_tracking _ _ _ s) by assumption. discriminate. }
  destruct (Rgt_dec (distanceFrom lastUpdate newLocation) LOCATION_RADIUS) as [Hfar | Hnear].
  { rewrite (check_moved _ _ _ s lastUpdate) by assumption. discriminate. }
  assert (Hd : (distanceFrom lastUpdate newLocation <= LOCATION_RADIUS)%R) by lra.
  rewrite (check_within_radius _ _ _ s lastUpdate) by assumption.
  destruct (truthyTime _) as [start |]; [| discriminate].
  destruct (STATIONARY_THRESHOLD <=? now env - start) eqn:Ht; [| discriminate].
  cbv zeta. destruct (hasLocationNameChanged _ _) eqn:Hc; [| discriminate].
  intros _. exists s, lastUpdate, start.
  apply Z.leb_le in Ht. repeat split; auto.
Qed.

(** X6. The detector answers [true] only for a fix within 100 m of the
    reference fix, at least five minutes after the stationary clock
    started, whose label is not the same place as the last significant
    location; the fix, with its label, then becomes the last significant
    location in memory and in storage, the clock restarts and the
    reference fix stays. *)
Theorem confirmed_only_when_stationary_and_relabelled :
  forall (env : Env) (newLocation : LocationData) (w : World),
    significant (checkForSignificantLocationChange env newLocation w) = true ->
    exists (s lastUpdate : LocationData) (start : Z),
      knownSignificant w = Some s /\
      lastLocationUpdate (service w) = Some lastUpdate /\
      truthyTime (stationaryStartTime (service w)) = Some start /\
      (distanceFrom lastUpdate newLocation <= LOCATION_RADIUS)%R /\
      STATIONARY_THRESHOLD <= now env - start /\
      hasLocationNameChanged
        (JsString.or_else (default "" (locationName s)) "") (geocoded env) = true /\
      let w' := world (checkForSignificantLocationChange env newLocation w) in
      lastSignificantLocation (service w')
      = Some (setLocationName (geocoded env) newLocation) /\
      last_significant_location (storage w')
      = Some (setLocationName (geocoded env) newLocation) /\
      significant_locations (storage w') = significant_locations (storage w) /\
      stationaryStartTime (service w') = Some (nowAfterSave env) /\
      lastLocationUpdate (service w') = Some lastUpdate.
Proof.
  intros env newLocation w H.
  destruct (check_significant_inv env newLocation w H)
    as (s & lu & start & Hs & Hu & Hstart & Hd & Ht & Hc & E).
  exists s, lu, start. repeat (split; [assumption |]).
  cbv zeta. rewrite E. simpl. rewrite afterLoad_storage, afterLoad_update.
  repeat split; auto.
Qed.

Lemma settled_confirms_office :
  checkForSignificantLocationChange (envAt 300000 officeLabel) stillHomeFix settledWorld
  = mkCheckResult true NewSignificantLocation (setLocationName officeLabel stillHomeFix)
      (markSignificant (scenarioStart + 300000 + 1)
                       (setLocationName officeLabel stillHomeFix) settledWorld).
Proof.
  rewrite check_settled_within by (apply distanceFrom_windowFix_north; lia).
  rewrite home_office_differ. reflexivity.
Qed.

Lemma confirmed_only_when_stationary_and_relabelled_witness :
  significant (checkForSignificantLocationChange
                 (envAt 300000 officeLabel) stillHomeFix settledWorld) = true /\
  exists (s lastUpdate : LocationData) (start : Z),
    knownSignificant settledWorld = Some s /\
    lastLocationUpdate (service settledWorld) = Some lastUpdate /\
    truthyTime (stationaryStartTime (service settledWorld)) = Some start /\
    (distanceFrom lastUpdate stillHomeFix <= LOCATION_RADIUS)%R /\
    STATIONARY_THRESHOLD <= now (envAt 300000 officeLabel) - start /\
    hasLocationNameChanged
      (JsString.or_else (default "" (locationName s)) "")
      (geocoded (envAt 300000 officeLabel)) = true /\
    let w' := world (checkForSignificantLocationChange
                       (envAt 300000 officeLabel) stillHomeFix settledWorld) in
    lastSignificantLocation (service w')
    = Some (setLocationName (geocoded (envAt 300000 officeLabel)) stillHomeFix) /\
    last_significant_location (storage w')
    = Some (setLocationName (geocoded (envAt 300000 officeLabel)) stillHomeFix) /\
    significant_locations (storage w') = significant_locations (storage settledWorld) /\
    stationaryStartTime (service w') = Some (nowAfterSave (envAt 300000 officeLabel)) /\
    lastLocationUpdate (service w') = Some lastUpdate.
Proof.
  assert (H : significant (checkForSignificantLocationChange
                             (envAt 300000 officeLabel) stillHomeFix settledWorld) = true)
    by (rewrite settled_confirms_office; reflexivity).
  split; [exact H |].
  exact (confirmed_only_when_stationary_and_relabelled _ _ _ H).
Defined.

(** X7. No duplicate confirmation: after a fix has been confirmed, a further
    fix is confirmed only if at least five minutes have passed since the
    clock was restarted and its label is not the same place as the label
    just confirmed. *)
Theorem confirmed_place_is_not_confirmed_again :
  forall (env env' : Env) (newLocation next : LocationData) (w : World),
    significant (checkForSignificantLocationChange env newLocation w) = true ->
    significant
      (checkForSignificantLocationChange env' next
         (world (checkForSignificantLocationChange env newLocation w))) = true ->
    STATIONARY_THRESHOLD <= now env' - nowAfterSave env /\
    hasLocationNameChanged (geocoded env) (geocoded env') = true.
Proof.
  intros env env' newLocation next w H H'.
  destruct (check_significant_inv env newLocation w H)
    as (s & lu & start & Hs & Hu & Hstart & Hd & Ht & Hc & E).
  rewrite E in H'. simpl in H'.
  destruct (check_significant_inv env' next _ H')
    as (s' & lu' & start' & Hs' & Hu' & Hstart' & Hd' & Ht' & Hc' & _).
  unfold knownSignificant, afterLoad in Hs'. simpl in Hs'.
  injection Hs' as <-. simpl in Hc'.
  simpl in Hstart'.
  assert (start' = nowAfterSave env).
  { destruct (nowAfterSave env =? 0); [discriminate | congruence]. }
  subst start'. split; [exact Ht' |].
  unfold JsString.or_else in Hc'.
  destruct (JsString.falsy (geocoded env)) eqn:F; [| exact Hc'].
  apply falsy_spec in F. rewrite F. reflexivity.
Qed.

Lemma confirmed_place_is_not_confirmed_again_witness :
  STATIONARY_THRESHOLD
  <= now (envAt 600001 homeLabel) - nowAfterSave (envAt 300000 officeLabel) /\
  hasLocationNameChanged (geocoded (envAt 300000 officeLabel))
                         (geocoded (envAt 600001 homeLabel)) = true.
Proof.
  apply (confirmed_place_is_not_confirmed_again
           (envAt 300000 officeLabel) (envAt 600001 homeLabel)
           stillHomeFix stillHomeFix' settledWorld).
  - rewrite settled_confirms_office. reflexivity.
  - rewrite settled_confirms_office. simpl world.
    rewrite (check_within_radius _ _ _ (setLocationName officeLabel stillHomeFix) windowFix)
      by (reflexivity || (apply distanceFrom_windowFix_north; lia)).
    reflexivity.
Defined.

(** ** The background task and the store *)

(** [clearAllLocationData()]: every key [significant_locations_...] and
    the key [last_significant_location] are removed and the last
    significant location is forgotten in memory. (No code of the
    application writes a key [location_history_...].) *)
Definition clearAllLocationData (w : World) : World :=
  {| service := {| lastSignificantLocation := None;
                   lastLocationUpdate := lastLocationUpdate (service w);
                   stationaryStartTime := stationaryStartTime (service w) |};
     storage := {| significant_locations := ∅;
                   last_significant_location := None |} |}.

(** Every stay kept by the store, under any day and as the last
    significant location, carries a label. *)
Definition allLabelled (st : AsyncStorage) : Prop :=
  (forall (key : string) (locations : list LocationData) (loc : LocationData),
      significant_locations st !! key = Some locations ->
      loc ∈ locations -> is_Some (locationName loc)) /\
  (forall loc : LocationData,
      last_significant_location st = Some loc -> is_Some (locationName loc)).

Section TaskAndStore.

Variable toISOString : Z -> string.
Variable parseDate : string -> option Z.

(** The fix as the task hands it to the detector. *)
Definition wrapFix (env : TaskEnv) (coords : Coords) : LocationData :=
  {| latitude := coordsLatitude coords;
     longitude := coordsLongitude coords;
     timestamp := toISOString (received env);
     locationName := None |}.

Lemma task_unfold (env : TaskEnv) (coords : Coords) (w : World) :
  backgroundLocationTask toISOString parseDate env coords w =
  let r := checkForSignificantLocationChange (checkEnv env) (wrapFix env coords) w in
  if significant r then
    (true,
     {| service := service (world r);
        storage := saveSignificantLocation toISOString parseDate
                     (saveToday env) (saveNow env)
                     (checkedLocation r) (storage (world r)) |})
  else (false, world r).
Proof. reflexivity. Qed.

(** X8. The task writes to the daily store exactly when the detector confirms:
    on [false] every day's list is as before; on [true] the list of the
    day is the old list followed by the fix with its label, cut to the
    last 24 hours, and the other days are as before. *)
Theorem task_saves_exactly_the_confirmed_fix :
  forall (env : TaskEnv) (coords : Coords) (w : World),
    (fst (backgroundLocationTask toISOString parseDate env coords w) = false ->
     significant_locations
       (storage (snd (backgroundLocationTask toISOString parseDate env coords w)))
     = significant_locations (storage w)) /\
    (fst (backgroundLocationTask toISOString parseDate env coords w) = true ->
     loadSignificantLocations toISOString (saveToday env)
       (storage (snd (backgroundLocationTask toISOString parseDate env coords w)))
     = List.filter (newerThan parseDate (saveNow env - 24 * 60 * 60 * 1000))
         (loadSignificantLocations toISOString (saveToday env) (storage w)
          ++ [setLocationName (geocoded (checkEnv env)) (wrapFix env coords)])%list /\
     forall date : Z,
       isoDay toISOString date <> isoDay toISOString (saveToday env) ->
       loadSignificantLocations toISOString date
         (storage (snd (backgroundLocationTask toISOString parseDate env coords w)))
       = loadSignificantLocations toISOString date (storage w)).
Proof.
  intros env coords w. rewrite task_unfold. cbv zeta.
  destruct (significant _) eqn:Hsig; simpl.
  - split; [discriminate |]. intros _.
    destruct (check_significant_inv _ _ _ Hsig) as (s & lu & start & _ & _ & _ & _ & _ & _ & E).
    rewrite E. simpl.
    assert (Hst : forall date,
               loadSignificantLocations toISOString date
                 (saveLastSignificantLocation
                    (setLocationName (geocoded (checkEnv env)) (wrapFix env coords))
                    (storage (afterLoad w)))
               = loadSignificantLocations toISOString date (storage w))
      by (intros date; rewrite afterLoad_storage; reflexivity).
    split.
    + rewrite load_after_save, Hst. reflexivity.
    + intros date Hne. rewrite load_other_day by exact Hne. apply Hst.
  - split; [| discriminate]. intros _.
    destruct (knownSignificant w) as [s |] eqn:Hs.
    2: { rewrite check_first_location_ever by exact Hs. simpl.
         rewrite afterLoad_storage. reflexivity. }
    destruct (lastLocationUpdate (service w)) as [lu |] eqn:Hu.
    2: { rewrite (check_starting_tracking _ _ _ s) by assumption. simpl.
         rewrite afterLoad_storage. reflexivity. }
    destruct (Rgt_dec (distanceFrom lu (wrapFix env coords)) LOCATION_RADIUS) as [Hfar | Hnear].
    { rewrite (check_moved _ _ _ s lu) by assumption. simpl.
      rewrite afterLoad_storage. reflexivity. }
    assert (Hd : (distanceFrom lu (wrapFix env coords) <= LOCATION_RADIUS)%R) by lra.
    rewrite (check_within_radius _ _ _ s lu) in Hsig |- * by assumption.
    destruct (truthyTime _); [| simpl; rewrite afterLoad_storage; reflexivity].
    destruct (_ <=? _); [| simpl; rewrite afterLoad_storage; reflexivity].
    cbv zeta in Hsig |- *.
    destruct (hasLocationNameChanged _ _); [discriminate |].
    simpl. rewrite afterLoad_storage. reflexivity.
Qed.

Lemma allLabelled_save (today nowMs : Z) (location : LocationData) (st : AsyncStorage) :
  is_Some (locationName location) ->
  allLabelled st ->
  allLabelled (saveSignificantLocation toISOString parseDate today nowMs location st).
Proof.
  intros Hl [Hdays Hlast]. split; [| exact Hlast].
  intros key locations loc. unfold saveSignificantLocation. simpl.
  destruct (decide (isoDay toISOString today = key)) as [<- | Hne].
  - rewrite lookup_insert_eq. intros E. injection E as <-.
    intros Hin. apply list_elem_of_In, filter_In in Hin as [Hin _].
    apply in_app_or in Hin as [Hin | [<- | []]]; [| exact Hl].
    destruct (significant_locations st !! isoDay toISOString today) as [old |] eqn:E.
    + apply (Hdays _ old loc E). apply list_elem_of_In. exact Hin.
    + destruct Hin.
  - rewrite lookup_insert_ne by exact Hne. apply Hdays.
Qed.

Lemma task_keeps_invariants (env : TaskEnv) (coords : Coords) (w : World) :
  consistent w -> allLabelled (storage w) ->
  consistent (snd (backgroundLocationTask toISOString parseDate env coords w)) /\
  allLabelled (storage (snd (backgroundLocationTask toISOString parseDate env coords w))).
Proof.
  intros Hc Hl. rewrite task_unfold. cbv zeta.
  pose proof (consistent_check (checkEnv env) (wrapFix env coords) w Hc) as Hc'.
  destruct (significant _) eqn:Hsig; simpl.
  - destruct (check_significant_inv _ _ _ Hsig) as (s & lu & start & _ & _ & _ & _ & _ & _ & E).
    rewrite E in Hc' |- *. simpl. split.
    + intros x Hx. simpl in Hx |- *. exact Hx.
    + apply allLabelled_save; [simpl; eauto |].
      destruct Hl as [Hdays Hlast]. split; simpl.
      * rewrite afterLoad_storage. exact Hdays.
      * intros loc Hloc. injection Hloc as <-. simpl. eauto.
  - split; [exact Hc' |].
    assert (Hst : storage (world (checkForSignificantLocationChange
                                    (checkEnv env) (wrapFix env coords) w)) = storage w).
    { destruct (knownSignificant w) as [s |] eqn:Hs.
      2: { rewrite check_first_location_ever by exact Hs. simpl. apply afterLoad_storage. }
      destruct (lastLocationUpdate (service w)) as [lu |] eqn:Hu.
      2: { rewrite (check_starting_tracking _ _ _ s) by assumption. simpl.
           apply afterLoad_storage. }
      destruct (Rgt_dec (distanceFrom lu (wrapFix env coords)) LOCATION_RADIUS)
        as [Hfar | Hnear].
      { rewrite (check_moved _ _ _ s lu) by assumption. simpl. apply afterLoad_storage. }
      assert (Hd : (distanceFrom lu (wrapFix env coords) <= LOCATION_RADIUS)%R) by lra.
      rewrite (check_within_radius _ _ _ s lu) in Hsig |- * by assumption.
      destruct (truthyTime _); [| simpl; apply afterLoad_storage].
      destruct (_ <=? _); [| simpl; apply afterLoad_storage].
      cbv zeta in Hsig |- *.
      destruct (hasLocationNameChanged _ _); [discriminate |].
      simpl. apply afterLoad_storage. }
    rewrite Hst. exact Hl.
Qed.

(** X9. Whatever fixes arrive, memory never holds a last significant location
    that storage does not hold, and every stay the store keeps carries a
    label. *)
Theorem runs_keep_memory_and_storage_in_step :
  forall (fixes : list (TaskEnv * Coords)) (w : World),
    consistent w -> allLabelled (storage w) ->
    consistent (snd (runTasks toISOString parseDate fixes w)) /\
    allLabelled (storage (snd (runTasks toISOString parseDate fixes w))).
Proof.
  induction fixes as [| [env coords] rest IH]; intros w Hc Hl; simpl; [auto |].
  destruct (task_keeps_invariants env coords w Hc Hl) as [Hc1 Hl1].
  destruct (backgroundLocationTask toISOString parseDate env coords w) as [b w1].
  simpl in Hc1, Hl1.
  destruct (IH w1 Hc1 Hl1) as [Hc2 Hl2].
  destruct (runTasks toISOString parseDate rest w1) as [bs w2].
  exact (conj Hc2 Hl2).
Qed.

(** X10. After the location data has been cleared, every day's list is empty,
    and it stays empty: no later fix is ever confirmed. *)
Theorem nothing_is_confirmed_after_clearing :
  forall (fixes : list (TaskEnv * Coords)) (w : World) (date : Z),
    loadSignificantLocations toISOString date (storage (clearAllLocationData w)) = [] /\
    knownSignificant (clearAllLocationData w) = None /\
    Forall (fun answer => answer = false)
           (fst (runTasks toISOString parseDate fixes (clearAllLocationData w))) /\
    loadSignificantLocations toISOString date
      (storage (snd (runTasks toISOString parseDate fixes (clearAllLocationData w)))) = [].
Proof.
  intros fixes w date.
  assert (H0 : knownSignificant (clearAllLocationData w) = None) by reflexivity.
  destruct (run_without_significant toISOString parseDate fixes _ H0) as (Hb & _ & Hs).
  split; [reflexivity |]. split; [exact H0 |]. split; [exact Hb |].
  rewrite Hs. reflexivity.
Qed.

End TaskAndStore.

Lemma allLabelled_settled : allLabelled (storage settledWorld).
Proof.
  split.
  - intros key locations loc H. simpl in H. rewrite lookup_empty in H. discriminate.
  - intros loc H. injection H as <-. simpl. eauto.
Defined.

Lemma runs_keep_memory_and_storage_in_step_witness :
  consistent settledWorld /\ allLabelled (storage settledWorld) /\
  forall (toISOString : Z -> string) (parseDate : string -> option Z),
    consistent (snd (runTasks toISOString parseDate twoWindows settledWorld)) /\
    allLabelled (storage (snd (runTasks toISOString parseDate twoWindows settledWorld))).
Proof.
  split; [exact consistent_settled |]. split; [exact allLabelled_settled |].
  intros toISOString parseDate.
  exact (runs_keep_memory_and_storage_in_step toISOString parseDate twoWindows
           settledWorld consistent_settled allLabelled_settled).
Defined.

(** ** The day's history, in time order *)

From Stdlib Require Import Sorted Permutation.

(** [interface] of the value [getLocationDataSummary] resolves to. *)
Record LocationDataSummary := mkSummary {
  todayCount : nat;
  totalStoredDays : nat;
  lastUpdated : option string
}.

Section History.

Variable toISOString : Z -> string.
Variable parseDate : string -> option Z.

(** The comparator of [getLocationHistoryForTimeline]:
    [new Date(a.timestamp).getTime() - new Date(b.timestamp).getTime()].
    With an invalid date the difference is NaN, which [sort] reads as 0. *)
Definition compareByTime (a b : LocationData) : Z :=
  match parseDate (timestamp a), parseDate (timestamp b) with
  | Some ta, Some tb => ta - tb
  | _, _ => 0
  end.

(** [locations.sort(compare)]. The sort of JavaScript is stable, which
    fixes its result for a consistent comparator; it is modelled by
    insertion from the right. (With an invalid date the comparator is not
    consistent and JavaScript leaves the order to the implementation.) *)
Fixpoint insertByTime (x : LocationData) (sorted : list LocationData)
  : list LocationData :=
  match sorted with
  | [] => [x]
  | y :: rest =>
      if 0 <? compareByTime x y then y :: insertByTime x rest else x :: sorted
  end.

Definition sortByTime (locations : list LocationData) : list LocationData :=
  foldr insertByTime [] locations.

(** [getLocationHistoryForTimeline(date)]. *)
Definition getLocationHistoryForTimeline (date : Z) (st : AsyncStorage)
  : list LocationData :=
  sortByTime (loadSignificantLocations toISOString date st).

(** [getLocationDataSummary()]: [today] is the [new Date()] of the key,
    [later] the [new Date()] of [lastUpdated]. *)
Definition getLocationDataSummary (today later : Z) (st : AsyncStorage)
  : LocationDataSummary :=
  match significant_locations st !! isoDay toISOString today with
  | Some todayData =>
      {| todayCount := length todayData;
         totalStoredDays := 1;
         lastUpdated := Some (toISOString later) |}
  | None => {| todayCount := 0; totalStoredDays := 0; lastUpdated := None |}
  end.

(** Both timestamps are dates and the first is not after the second. *)
Definition notAfter (a b : LocationData) : Prop :=
  match parseDate (timestamp a), parseDate (timestamp b) with
  | Some ta, Some tb => ta <= tb
  | _, _ => False
  end.

Definition dated (loc : LocationData) : Prop := is_Some (parseDate (timestamp loc)).

Lemma insertByTime_perm (x : LocationData) (l : list LocationData) :
  Permutation (insertByTime x l) (x :: l).
Proof.
  induction l as [| y rest IH]; simpl; [reflexivity |].
  destruct (0 <? compareByTime x y); [| reflexivity].
  rewrite IH. apply perm_swap.
Qed.

Lemma sortByTime_perm (l : list LocationData) : Permutation (sortByTime l) l.
Proof.
  induction l as [| x rest IH]; simpl; [reflexivity |].
  rewrite insertByTime_perm, IH. reflexivity.
Qed.

Lemma notAfter_trans (a b c : LocationData) :
  notAfter a b -> notAfter b c -> notAfter a c.
Proof.
  unfold notAfter.
  destruct (parseDate (timestamp a)), (parseDate (timestamp b)),
    (parseDate (timestamp c)); try tauto. lia.
Qed.

Lemma insertByTime_sorted (x : LocationData) (l : list LocationData) :
  dated x -> Forall dated l ->
  StronglySorted notAfter l -> StronglySorted notAfter (insertByTime x l).
Proof.
  intros [tx Hx] Hl Hs. induction Hs as [| y rest Hs IH Hy]; simpl.
  - constructor; constructor.
  - apply Forall_cons in Hl as [[ty Hty] Hl].
    unfold compareByTime. rewrite Hx, Hty.
    destruct (0 <? tx - ty) eqn:Hcmp.
    + apply Z.ltb_lt in Hcmp. constructor; [apply IH, Hl |].
      eapply Permutation_Forall; [symmetry; apply insertByTime_perm |].
      constructor; [| exact Hy]. unfold notAfter. rewrite Hx, Hty. lia.
    + apply Z.ltb_ge in Hcmp.
      assert (Hxy : notAfter x y) by (unfold notAfter; rewrite Hx, Hty; lia).
      constructor; [constructor; assumption |].
      constructor; [exact Hxy |].
      eapply Forall_impl; [exact Hy |].
      intros z Hz. simpl in Hz. exact (notAfter_trans x y z Hxy Hz).
Qed.

Lemma insertByTime_front (x : LocationData) (l : list LocationData) :
  Forall (notAfter x) l -> insertByTime x l = x :: l.
Proof.
  intros H. destruct l as [| y rest]; [reflexivity |]. simpl.
  apply Forall_cons in H as [Hxy _]. unfold notAfter in Hxy. unfold compareByTime.
  destruct (parseDate (timestamp x)), (parseDate (timestamp y)); try contradiction.
  destruct (0 <? z - z0) eqn:E; [apply Z.ltb_lt in E; lia | reflexivity].
Qed.

(** X11. The history of a day whose stored timestamps are all dates is the
    stored list rearranged in ascending time order; a stored list that is
    already in time order is returned as it is. *)
Theorem history_is_the_store_in_time_order :
  forall (date : Z) (st : AsyncStorage),
    Forall dated (loadSignificantLocations toISOString date st) ->
    Permutation (getLocationHistoryForTimeline date st)
                (loadSignificantLocations toISOString date st) /\
    StronglySorted notAfter (getLocationHistoryForTimeline date st) /\
    (StronglySorted notAfter (loadSignificantLocations toISOString date st) ->
     getLocationHistoryForTimeline date st
     = loadSignificantLocations toISOString date st).
Proof.
  intros date st. unfold getLocationHistoryForTimeline.
  generalize (loadSignificantLocations toISOString date st). intros l Hl.
  split; [apply sortByTime_perm |]. split.
  - induction Hl as [| x rest Hx Hrest IH]; simpl; [constructor |].
    apply insertByTime_sorted; [exact Hx | | exact IH].
    eapply Permutation_Forall; [symmetry; apply sortByTime_perm | exact Hrest].
  - intros Hs. clear Hl. induction Hs as [| x rest Hs IH Hx]; simpl; [reflexivity |].
    rewrite IH. apply insertByTime_front. exact Hx.
Qed.

(** X12. The summary counts the stays stored under today's key and never
    reports more than one stored day; right after a stay has been
    appended it reports one stored day, even when the retention cut left
    the day's list empty. *)
Theorem summary_counts_today_only :
  forall (today later nowMs : Z) (location : LocationData) (st : AsyncStorage),
    todayCount (getLocationDataSummary today later st)
    = length (loadSignificantLocations toISOString today st) /\
    (totalStoredDays (getLocationDataSummary today later st) <= 1)%nat /\
    (significant_locations st !! isoDay toISOString today = None ->
     getLocationDataSummary today later st = mkSummary 0 0 None) /\
    getLocationDataSummary today later
      (saveSignificantLocation toISOString parseDate today nowMs location st)
    = mkSummary
        (length (List.filter (newerThan parseDate (nowMs - 24 * 60 * 60 * 1000))
                   (loadSignificantLocations toISOString today st ++ [location])%list))
        1 (Some (toISOString later)).
Proof.
  intros today later nowMs location st.
  unfold getLocationDataSummary, loadSignificantLocations.
  split; [| split; [| split]].
  - destruct (significant_locations st !! isoDay toISOString today); reflexivity.
  - destruct (significant_locations st !! isoDay toISOString today); simpl; lia.
  - intros ->. reflexivity.
  - unfold saveSignificantLocation. simpl. rewrite lookup_insert_eq. reflexivity.
Qed.

End History.

(** The two date built-ins at the instants of the examples. *)
Definition sampleToISOString (t : Z) : string := "2023-11-14T22:13:20.000Z".

Definition sampleParseDate (text : string) : option Z :=
  if String.eqb text "2023-11-14T08:00:00.000Z" then Some 1699948800000
  else if String.eqb text "2023-11-14T09:30:00.000Z" then Some 1699954200000
  else if String.eqb text "2023-11-14T22:13:20.000Z" then Some 1700000000000
  else None.

(** A store holding the two stays of [sampleHistory], the later first. *)
Definition sampleStorage : AsyncStorage :=
  {| significant_locations := {[ "2023-11-14" := rev sampleHistory ]};
     last_significant_location := None |}.

Lemma sampleStorage_load :
  loadSignificantLocations sampleToISOString scenarioStart sampleStorage
  = rev sampleHistory.
Proof. reflexivity. Qed.

Example sample_history_sorted :
  getLocationHistoryForTimeline sampleToISOString sampleParseDate scenarioStart
    sampleStorage = sampleHistory.
Proof. reflexivity. Qed.

Lemma history_is_the_store_in_time_order_witness :
  Forall (dated sampleParseDate)
         (loadSignificantLocations sampleToISOString scenarioStart sampleStorage) /\
  Permutation
    (getLocationHistoryForTimeline sampleToISOString sampleParseDate scenarioStart
       sampleStorage)
    (loadSignificantLocations sampleToISOString scenarioStart sampleStorage) /\
  StronglySorted (notAfter sampleParseDate)
    (getLocationHistoryForTimeline sampleToISOString sampleParseDate scenarioStart
       sampleStorage).
Proof.
  assert (H : Forall (dated sampleParseDate)
                (loadSignificantLocations sampleToISOString scenarioStart sampleStorage)).
  { rewrite sampleStorage_load. repeat constructor; eexists; reflexivity. }
  split; [exact H |].
  destruct (history_is_the_store_in_time_order sampleToISOString sampleParseDate
              scenarioStart sampleStorage H) as (Hp & Hs & _).
  exact (conj Hp Hs).
Defined.

(** ** The current location *)

(** [firstTruthy a b] is [a || b] for an optional text [a]. *)
Definition firstTruthy (a : option string) (b : string) : string :=
  match a with
  | Some s => JsString.or_else s b
  | None => b
  end.

Section CurrentLocation.

Variable toISOString : Z -> string.
Variable toFixed4 : R -> string.

(** [getCurrentLocation()]: [currentLocation] is the field of the class,
    [position] what [Location.getCurrentPositionAsync] resolves to
    ([None] when it throws) and [t] the [new Date()] of the timestamp.
    The result is the value returned and the field afterwards. *)
Definition getCurrentLocation
    (position : option Coords) (t : Z) (currentLocation : option LocationData)
  : option LocationData * option LocationData :=
  match currentLocation with
  | Some location => (Some location, currentLocation)
  | None =>
      match position with
      | Some coords =>
          let location :=
            {| latitude := coordsLatitude coords;
               longitude := coordsLongitude coords;
               timestamp := toISOString t;
               locationName := None |} in
          (Some location, Some location)
      | None => (None, None)
      end
  end.

(** [createTimelineEntryFromLocation(dailyEntryId, locationName, customName)]:
    [None] when it throws ['Unable to get current location']. *)
Definition createTimelineEntryFromLocation
    (position : option Coords) (t : Z)
    (device : DeviceGeocoding) (remote : RemoteGeocoding)
    (dailyEntryId : nat) (locationName customName : option string)
    (currentLocation : option LocationData)
  : option Feed.TimelineEntry * option LocationData :=
  match getCurrentLocation position t currentLocation with
  | (None, field) => (None, field)
  | (Some location, field) =>
      let name :=
        firstTruthy customName
          (firstTruthy locationName
             (getLocationName toFixed4 (latitude location) (longitude location)
                              device remote)) in
      (Some {| Feed.id := None;
               Feed.dailyEntryId := dailyEntryId;
               Feed.locationName := name;
               Feed.timestamp := Some (timestamp location);
               Feed.latitude := Some (latitude location);
               Feed.longitude := Some (longitude location);
               Feed.icon := Some (getLocationIcon name);
               Feed.order := 0 |},
       field)
  end.

(** X13. The current location is fetched once: after a call that returned a
    location, every call returns that same location, whatever position
    the device reports then; so a timeline entry made from the current
    location carries the time and the coordinates of the first position
    obtained, not of the moment it is made. A call that failed caches
    nothing. *)
Theorem current_location_is_fetched_once :
  forall (position1 position2 : option Coords) (t1 t2 : Z)
         (device1 device2 : DeviceGeocoding) (remote1 remote2 : RemoteGeocoding)
         (entry1 entry2 : nat) (name1 name2 custom1 custom2 : option string)
         (currentLocation : option LocationData),
    match getCurrentLocation position1 t1 currentLocation with
    | (Some location, field) =>
        getCurrentLocation position2 t2 field = (Some location, Some location) /\
        exists (e1 e2 : Feed.TimelineEntry),
          fst (createTimelineEntryFromLocation position1 t1 device1 remote1
                 entry1 name1 custom1 currentLocation) = Some e1 /\
          fst (createTimelineEntryFromLocation position2 t2 device2 remote2
                 entry2 name2 custom2 field) = Some e2 /\
          Feed.timestamp e2 = Feed.timestamp e1 /\
          Feed.latitude e2 = Feed.latitude e1 /\
          Feed.longitude e2 = Feed.longitude e1 /\
          Feed.timestamp e1 = Some (timestamp location)
    | (None, field) =>
        currentLocation = None /\ position1 = None /\ field = None /\
        fst (createTimelineEntryFromLocation position1 t1 device1 remote1
               entry1 name1 custom1 currentLocation) = None
    end.
Proof.
  intros. unfold createTimelineEntryFromLocation, getCurrentLocation.
  destruct currentLocation as [location |]; simpl.
  - split; [reflexivity |]. eexists. eexists. repeat split.
  - destruct position1 as [coords |]; simpl.
    + split; [reflexivity |]. eexists. eexists. repeat split.
    + repeat split.
Qed.

End CurrentLocation.

(** ** The timeline table *)

Section TimelineTable.

Import Feed.
Local Open Scope nat_scope.
Local Open Scope list_scope.

Implicit Types db : Database.
Implicit Types row entry : TimelineEntry.

(** Every row has an id between 1 and the counter, and no two rows share
    one: what AUTOINCREMENT keeps. *)
Definition wellFormed db : Prop :=
  Forall (fun row => exists i, id row = Some i /\ 1 <= i <= lastRowId db)
         (timeline_entries db) /\
  NoDup (id <$> timeline_entries db).

Lemma wellFormed_empty : wellFormed {| timeline_entries := []; lastRowId := 0 |}.
Proof. split; simpl; constructor. Qed.

Lemma filter_id_fresh db (n : nat) :
  wellFormed db -> lastRowId db < n ->
  List.filter (fun row => negb (bool_decide (id row = Some n))) (timeline_entries db)
  = timeline_entries db.
Proof.
  intros [Hids _] Hn. induction Hids as [| row rest (i & Hi & Hle) _ IH]; simpl.
  - reflexivity.
  - rewrite bool_decide_eq_false_2 by (rewrite Hi; intros E; injection E as ->; lia).
    simpl. rewrite IH. reflexivity.
Qed.

Lemma filter_app_list {A} (f : A -> bool) (l k : list A) :
  List.filter f (l ++ k) = List.filter f l ++ List.filter f k.
Proof. induction l as [| x l IH]; simpl; [reflexivity |]. destruct (f x); simpl; congruence. Qed.

Lemma fmap_filter_subset db (f : TimelineEntry -> bool) (x : option nat) :
  x ∈ (id <$> List.filter f (timeline_entries db)) -> x ∈ (id <$> timeline_entries db).
Proof.
  intros H. apply list_elem_of_fmap in H as (row & -> & Hrow).
  apply list_elem_of_In, filter_In in Hrow as [Hrow _].
  apply list_elem_of_fmap. exists row. split; [reflexivity |].
  apply list_elem_of_In. exact Hrow.
Qed.

Lemma NoDup_fmap_filter {A B} (g : A -> B) (f : A -> bool) (l : list A) :
  NoDup (g <$> l) -> NoDup (g <$> List.filter f l).
Proof.
  induction l as [| x l IH]; simpl; [auto |].
  intros H. apply NoDup_cons in H as [Hx Hl].
  destruct (f x); simpl; [| auto].
  apply NoDup_cons. split; [| auto].
  intros Hin. apply Hx.
  apply list_elem_of_fmap in Hin as (y & -> & Hy).
  apply list_elem_of_In, filter_In in Hy as [Hy _].
  apply list_elem_of_fmap. exists y. split; [reflexivity |].
  apply list_elem_of_In. exact Hy.
Qed.

(** X14. Row ids are never reused: an insert gives an id no row has, a delete
    leaves the counter where it was, and both keep the ids of the table
    distinct and within the counter. *)
Theorem row_ids_are_fresh_and_distinct :
  forall db entry (n : nat),
    wellFormed db ->
    wellFormed (snd (createTimelineEntry entry db)) /\
    wellFormed (deleteTimelineEntry n db) /\
    (Some (fst (createTimelineEntry entry db)) ∉ (id <$> timeline_entries db)) /\
    (Some (fst (createTimelineEntry entry db))
     ∉ (id <$> timeline_entries (deleteTimelineEntry n db))) /\
    fst (createTimelineEntry entry (deleteTimelineEntry n db))
    = fst (createTimelineEntry entry db).
Proof.
  intros db entry n [Hids Hnd].
  assert (Hfresh : Some (S (lastRowId db)) ∉ (id <$> timeline_entries db)).
  { intros Hin. apply list_elem_of_fmap in Hin as (row & E & Hrow).
    rewrite Forall_forall in Hids.
    destruct (Hids row Hrow) as (i & Hi & Hle). rewrite Hi in E.
    injection E as E. lia. }
  split; [| split; [| split; [| split]]].
  - split; simpl.
    + apply Forall_app. split.
      * eapply Forall_impl; [exact Hids |]. intros row (i & Hi & Hle).
        simpl. exists i. split; [exact Hi | lia].
      * constructor; [| constructor]. simpl. eexists. split; [reflexivity | lia].
    + rewrite fmap_app. apply NoDup_app. split; [exact Hnd |]. split.
      * intros x Hx Hin. simpl in Hin. apply list_elem_of_singleton in Hin.
        subst x. exact (Hfresh Hx).
      * simpl. apply NoDup_singleton.
  - split; simpl.
    + apply Forall_forall. intros row Hrow.
      apply list_elem_of_In, filter_In in Hrow as [Hrow _].
      rewrite Forall_forall in Hids. apply Hids, list_elem_of_In, Hrow.
    + apply NoDup_fmap_filter. exact Hnd.
  - exact Hfresh.
  - simpl. intros Hin. apply Hfresh. eapply fmap_filter_subset. exact Hin.
  - reflexivity.
Qed.

Lemma row_ids_are_fresh_and_distinct_witness :
  wellFormed (snd (createTimelineEntry storedHome storedTable)) /\
  wellFormed (deleteTimelineEntry 1 storedTable) /\
  (Some (fst (createTimelineEntry storedHome storedTable))
   ∉ (id <$> timeline_entries storedTable)) /\
  (Some (fst (createTimelineEntry storedHome storedTable))
   ∉ (id <$> timeline_entries (deleteTimelineEntry 1 storedTable))) /\
  fst (createTimelineEntry storedHome (deleteTimelineEntry 1 storedTable))
  = fst (createTimelineEntry storedHome storedTable).
Proof.
  apply row_ids_are_fresh_and_distinct.
  split; simpl.
  - constructor; [| constructor]. exists 1. split; [reflexivity | lia].
  - apply NoDup_singleton.
Defined.

(** X15. Insert then delete: deleting the row just inserted gives back the
    rows the table had, in their order; only the counter has moved. *)
Theorem insert_then_delete_restores_the_rows :
  forall db entry,
    wellFormed db ->
    timeline_entries
      (deleteTimelineEntry (fst (createTimelineEntry entry db))
                           (snd (createTimelineEntry entry db)))
    = timeline_entries db /\
    lastRowId
      (deleteTimelineEntry (fst (createTimelineEntry entry db))
                           (snd (createTimelineEntry entry db)))
    = S (lastRowId db).
Proof.
  intros db entry Hwf. split; [| reflexivity]. simpl.
  rewrite filter_app_list. simpl.
  rewrite bool_decide_eq_true_2 by reflexivity. simpl.
  rewrite app_nil_r. apply filter_id_fresh; [exact Hwf | lia].
Qed.

Lemma wellFormed_storedTable : wellFormed storedTable.
Proof.
  split; simpl.
  - constructor; [| constructor]. exists 1. split; [reflexivity | lia].
  - apply NoDup_singleton.
Defined.

Lemma insert_then_delete_restores_the_rows_witness :
  timeline_entries
    (deleteTimelineEntry (fst (createTimelineEntry newOffice storedTable))
                         (snd (createTimelineEntry newOffice storedTable)))
  = timeline_entries storedTable /\
  lastRowId
    (deleteTimelineEntry (fst (createTimelineEntry newOffice storedTable))
                         (snd (createTimelineEntry newOffice storedTable)))
  = S (lastRowId storedTable).
Proof.
  apply insert_then_delete_restores_the_rows. exact wellFormed_storedTable.
Defined.

End TimelineTable.

(** ** Saving a valid timeline *)

Section SaveValid.

Import Feed.
Local Open Scope nat_scope.
Local Open Scope list_scope.

Implicit Types db : Database.
Implicit Types row entry : TimelineEntry.

(** The row [handleSaveTimeline] stores for an entry of the batch: empty
    texts and zero coordinates are stored as NULL. *)
Definition storedRow (currentEntryId rowId : nat) entry : TimelineEntry :=
  {| id := Some rowId;
     dailyEntryId := currentEntryId;
     locationName := locationName entry;
     timestamp := textOrNull (timestamp entry);
     latitude := numberOrNull (numberOrNull (latitude entry));
     longitude := numberOrNull (numberOrNull (longitude entry));
     icon := textOrNull (textOrNull (icon entry));
     order := order entry |}.

(** A row survives the first loop when no entry of the screen's copy
    carries its id. *)
Definition survives (existingEntries : list TimelineEntry) row : bool :=
  forallb (fun existingEntry =>
             match id existingEntry with
             | Some (S n) => negb (bool_decide (id row = Some (S n)))
             | _ => true
             end) existingEntries.

Lemma filter_filter_list {A} (f g : A -> bool) (l : list A) :
  List.filter f (List.filter g l) = List.filter (fun x => g x && f x)%bool l.
Proof.
  induction l as [| x l IH]; simpl; [reflexivity |].
  destruct (g x); simpl; [destruct (f x); simpl; congruence | exact IH].
Qed.

Lemma deleteExisting_rows (existingEntries : list TimelineEntry) db :
  deleteExisting existingEntries db =
  {| timeline_entries := List.filter (survives existingEntries) (timeline_entries db);
     lastRowId := lastRowId db |}.
Proof.
  unfold survives.
  revert db. induction existingEntries as [| e rest IH]; intros db; simpl.
  - destruct db as [rows n]. simpl. f_equal.
    induction rows as [| r rows IHr]; simpl; congruence.
  - destruct (id e) as [[| n] |]; rewrite IH; simpl.
    + reflexivity.
    + rewrite filter_filter_list. reflexivity.
    + reflexivity.
Qed.

Lemma createAll_accepted (currentEntryId : nat) (entries : list TimelineEntry) db :
  accepted entries ->
  createAll currentEntryId entries db =
  ({| timeline_entries :=
        timeline_entries db
        ++ imap (fun k => storedRow currentEntryId (S (lastRowId db + k))) entries;
      lastRowId := lastRowId db + length entries |}, None).
Proof.
  intros Hacc. revert db. induction Hacc as [| e rest He _ IH]; intros db.
  - simpl. destruct db as [rows n]. simpl. rewrite app_nil_r, Nat.add_0_r. reflexivity.
  - cbn [createAll]. rewrite He. rewrite IH. simpl. f_equal. f_equal.
    + rewrite <- app_assoc. simpl. f_equal. f_equal.
      * unfold storedRow. rewrite Nat.add_0_r. reflexivity.
      * apply imap_ext. intros k x _. simpl. f_equal. lia.
    + lia.
Qed.

(** The screen's copy lists the stored rows of the entry being edited,
    with their ids. *)
Definition inSync (currentEntryId : nat) (existingEntries : list TimelineEntry) db
  : Prop :=
  forall row, row ∈ timeline_entries db ->
              (dailyEntryId row = currentEntryId <-> id row ∈ (id <$> existingEntries)).

Lemma survives_false_iff (existingEntries : list TimelineEntry) row (i : nat) :
  id row = Some (S i) ->
  (survives existingEntries row = false <-> id row ∈ (id <$> existingEntries)).
Proof.
  intros Hi. unfold survives. induction existingEntries as [| e rest IH]; simpl.
  - split; [discriminate | intros H; apply elem_of_nil in H; contradiction].
  - rewrite andb_false_iff, IH, elem_of_cons. apply or_iff_compat_r.
    destruct (id e) as [[| n] |] eqn:E.
    + rewrite Hi. split; [discriminate | intros H; discriminate].
    + rewrite negb_false_iff, bool_decide_eq_true. reflexivity.
    + rewrite Hi. split; [discriminate | intros H; discriminate].
Qed.

(** X16. A batch in which every entry has a name and a timestamp replaces the
    timeline of the entry being edited: the save reports no error, the
    rows of the other daily entries stay as they are, in their order, and
    behind them the batch is stored in its order under new ids. *)
Theorem valid_batch_replaces_the_timeline :
  forall (currentEntryId : nat) (timelineEntries : gmap nat (list TimelineEntry))
         (existingEntries entries : list TimelineEntry) db,
    wellFormed db ->
    timelineEntries !! currentEntryId = Some existingEntries ->
    inSync currentEntryId existingEntries db ->
    accepted entries ->
    handleSaveTimeline (Some currentEntryId) timelineEntries entries db =
    ({| timeline_entries :=
          List.filter (fun row => negb (dailyEntryId row =? currentEntryId))
                      (timeline_entries db)
          ++ imap (fun k => storedRow currentEntryId (S (lastRowId db + k))) entries;
        lastRowId := lastRowId db + length entries |}, None).
Proof.
  intros cur screen existing entries db [Hids _] Hscreen Hsync Hacc.
  unfold handleSaveTimeline. rewrite Hscreen. simpl.
  rewrite deleteExisting_rows, createAll_accepted by exact Hacc. simpl.
  f_equal. f_equal. f_equal.
  apply filter_ext_in. intros row Hrow.
  rewrite Forall_forall in Hids. apply list_elem_of_In in Hrow.
  destruct (Hids row Hrow) as (i & Hi & Hle).
  destruct i as [| i]; [lia |].
  destruct (survives existing row) eqn:Hs.
  - symmetry. apply negb_true_iff, Nat.eqb_neq. intros Hcur.
    apply (Hsync row Hrow) in Hcur.
    apply (survives_false_iff existing row i Hi) in Hcur. congruence.
  - symmetry. apply negb_false_iff, Nat.eqb_eq.
    apply (Hsync row Hrow). apply (survives_false_iff existing row i Hi). exact Hs.
Qed.

Lemma valid_batch_replaces_the_timeline_witness :
  handleSaveTimeline (Some 7) screenTimelines [keptHome; newOffice] storedTable =
  ({| timeline_entries :=
        List.filter (fun row => negb (dailyEntryId row =? 7))
                    (timeline_entries storedTable)
        ++ imap (fun k => storedRow 7 (S (lastRowId storedTable + k)))
                [keptHome; newOffice];
      lastRowId := lastRowId storedTable + length [keptHome; newOffice] |}, None).
Proof.
  apply (valid_batch_replaces_the_timeline 7 screenTimelines [storedHome]).
  - exact wellFormed_storedTable.
  - reflexivity.
  - intros row Hrow. simpl in Hrow. apply list_elem_of_singleton in Hrow. subst row.
    simpl. split; [intros _; apply list_elem_of_here | reflexivity].
  - repeat constructor.
Defined.

End SaveValid.

(** ** Adding today's locations to an entry's timeline (FeedScreen) *)

Section AddTimeline.

Import Feed.
Local Open Scope nat_scope.
Local Open Scope list_scope.

Implicit Types db : Database.

(** The label [getLocationName] resolves to at the k-th lookup of a run
    of the handler. *)
Variable labelAt : nat -> string.

(** The timeline entry the today branch of [handleAddTimeline] builds for
    a location, before it has an id. *)
Definition timelineEntryFor (entryId position : nat) (label : string)
    (location : LocationData) : TimelineEntry :=
  {| id := None;
     dailyEntryId := entryId;
     locationName := label;
     timestamp := Some (location_timestamp location);
     latitude := Some (location_latitude location);
     longitude := Some (location_longitude location);
     icon := Some (getLocationIcon label);
     order := position |}.

(** [{ ...timelineEntry, id: timelineId }]. *)
Definition withId (rowId : nat) (entry : TimelineEntry) : TimelineEntry :=
  {| id := Some rowId;
     dailyEntryId := dailyEntryId entry;
     locationName := locationName entry;
     timestamp := timestamp entry;
     latitude := latitude entry;
     longitude := longitude entry;
     icon := icon entry;
     order := order entry |}.

(** The loop of the today branch. [existingLocationTimes] was computed
    before the loop; [existingTimelines] is the array the loop pushes
    onto, so its length grows with [addedCount]. *)
Fixpoint addMissingLocations (entryId : nat)
    (existingLocationTimes : list (option string))
    (todayLocations : list LocationData)
    (existingTimelines : list TimelineEntry) (addedCount : nat) db
  : list TimelineEntry * nat * Database :=
  match todayLocations with
  | [] => (existingTimelines, addedCount, db)
  | location :: rest =>
      if bool_decide (Some (location_timestamp location) ∈ existingLocationTimes)
      then addMissingLocations entryId existingLocationTimes rest
             existingTimelines addedCount db
      else
        let timelineEntry :=
          timelineEntryFor entryId (length existingTimelines + addedCount)
                           (labelAt addedCount) location in
        let '(timelineId, db') := createTimelineEntry timelineEntry db in
        let createdTimeline := withId timelineId timelineEntry in
        addMissingLocations entryId existingLocationTimes rest
          (existingTimelines ++ [createdTimeline]) (S addedCount) db'
  end.

(** What the handler tells the user. *)
Inductive AddTimelineAlert :=
| TimelineUpdated (addedCount : nat)
| NoNewLocations.

(** The today branch of [handleAddTimeline(entryId)]: [todayLocations] is
    what [getTodayLocationHistory()] resolved to, [timelineEntries] the
    screen's map. *)
Definition addTodayLocations (entryId : nat) (todayLocations : list LocationData)
    (timelineEntries : gmap nat (list TimelineEntry)) db
  : gmap nat (list TimelineEntry) * Database * AddTimelineAlert :=
  let existingTimelines := default [] (timelineEntries !! entryId) in
  let existingLocationTimes := timestamp <$> existingTimelines in
  let '(existingTimelines', addedCount, db') :=
    addMissingLocations entryId existingLocationTimes todayLocations
                        existingTimelines 0 db in
  if 0 <? addedCount then
    (<[entryId := existingTimelines']> timelineEntries, db', TimelineUpdated addedCount)
  else (timelineEntries, db', NoNewLocations).

(** The locations the loop adds: those whose timestamp no existing entry
    of the timeline has. *)
Definition missingLocations (existingTimelines : list TimelineEntry)
    (todayLocations : list LocationData) : list LocationData :=
  List.filter
    (fun location =>
       negb (bool_decide (Some (location_timestamp location)
                          ∈ (timestamp <$> existingTimelines))))
    todayLocations.

(** The row the table receives for a location added by the loop. *)
Definition rowForToday (entryId rowId position : nat) (label : string)
    (location : LocationData) : TimelineEntry :=
  {| id := Some rowId;
     dailyEntryId := entryId;
     locationName := label;
     timestamp := textOrNull (Some (location_timestamp location));
     latitude := numberOrNull (Some (location_latitude location));
     longitude := numberOrNull (Some (location_longitude location));
     icon := textOrNull (Some (getLocationIcon label));
     order := position |}.

Lemma addMissingLocations_result (entryId : nat) (times : list (option string))
    (todayLocations : list LocationData) (acc : list TimelineEntry) (k : nat) db :
  addMissingLocations entryId times todayLocations acc k db =
  (acc ++ imap (fun j location =>
                  withId (S (lastRowId db + j))
                    (timelineEntryFor entryId (length acc + k + 2 * j)
                                      (labelAt (k + j)) location))
               (List.filter
                  (fun location =>
                     negb (bool_decide (Some (location_timestamp location) ∈ times)))
                  todayLocations),
   k + length (List.filter
                 (fun location =>
                    negb (bool_decide (Some (location_timestamp location) ∈ times)))
                 todayLocations),
   {| timeline_entries :=
        timeline_entries db
        ++ imap (fun j location =>
                   rowForToday entryId (S (lastRowId db + j))
                               (length acc + k + 2 * j) (labelAt (k + j)) location)
                (List.filter
                   (fun location =>
                      negb (bool_decide (Some (location_timestamp location) ∈ times)))
                   todayLocations);
      lastRowId :=
        lastRowId db
        + length (List.filter
                    (fun location =>
                       negb (bool_decide (Some (location_timestamp location) ∈ times)))
                    todayLocations) |}).
Proof.
  revert acc k db.
  induction todayLocations as [| location rest IH]; intros acc k db.
  - simpl. destruct db as [rows n]. simpl.
    rewrite !app_nil_r, !Nat.add_0_r. reflexivity.
  - cbn [addMissingLocations List.filter].
    destruct (bool_decide (Some (location_timestamp location) ∈ times)); simpl negb;
      cbv iota.
    + apply IH.
    + cbn [createTimelineEntry]. rewrite IH. cbn [imap length lastRowId timeline_entries].
      rewrite <- !app_assoc. cbn [app].
      assert (Hrow : forall j x,
                 rowForToday entryId (S (S (lastRowId db) + j))
                   (length (acc ++ [withId (S (lastRowId db))
                                      (timelineEntryFor entryId (length acc + k)
                                                        (labelAt k) location)])
                    + S k + 2 * j) (labelAt (S k + j)) x
                 = rowForToday entryId (S (lastRowId db + S j))
                     (length acc + k + 2 * S j) (labelAt (k + S j)) x).
      { intros j x. rewrite length_app. cbn [length].
        replace (S (lastRowId db) + j) with (lastRowId db + S j) by lia.
        replace (length acc + 1 + S k + 2 * j) with (length acc + k + 2 * S j) by lia.
        replace (S k + j) with (k + S j) by lia. reflexivity. }
      assert (Hent : forall j x,
                 withId (S (S (lastRowId db) + j))
                   (timelineEntryFor entryId
                      (length (acc ++ [withId (S (lastRowId db))
                                         (timelineEntryFor entryId (length acc + k)
                                                           (labelAt k) location)])
                       + S k + 2 * j) (labelAt (S k + j)) x)
                 = withId (S (lastRowId db + S j))
                     (timelineEntryFor entryId (length acc + k + 2 * S j)
                                       (labelAt (k + S j)) x)).
      { intros j x. rewrite length_app. cbn [length].
        replace (S (lastRowId db) + j) with (lastRowId db + S j) by lia.
        replace (length acc + 1 + S k + 2 * j) with (length acc + k + 2 * S j) by lia.
        replace (S k + j) with (k + S j) by lia. reflexivity. }
      replace (lastRowId db + 0) with (lastRowId db) by lia.
      replace (length acc + k + 2 * 0) with (length acc + k) by lia.
      replace (k + 0) with k by lia.
      f_equal; [f_equal |].
      * f_equal. f_equal. apply imap_ext. intros j x _. apply Hent.
      * lia.
      * f_equal; [| lia]. f_equal. f_equal.
        apply imap_ext. intros j x _. apply Hrow.
Qed.

(** The entries the loop appends to a timeline of [n] entries. *)
Definition addedEntries (entryId n : nat) db (missing : list LocationData)
  : list TimelineEntry :=
  imap (fun j location =>
          withId (S (lastRowId db + j))
                 (timelineEntryFor entryId (n + 2 * j) (labelAt j) location))
       missing.

Lemma addTodayLocations_result (entryId : nat) (todayLocations : list LocationData)
    (timelineEntries : gmap nat (list TimelineEntry)) db :
  addTodayLocations entryId todayLocations timelineEntries db =
  let existing := default [] (timelineEntries !! entryId) in
  let missing := missingLocations existing todayLocations in
  (if 0 <? length missing
   then <[entryId := existing ++ addedEntries entryId (length existing) db missing]>
          timelineEntries
   else timelineEntries,
   {| timeline_entries :=
        timeline_entries db
        ++ imap (fun j location =>
                   rowForToday entryId (S (lastRowId db + j))
                               (length existing + 2 * j) (labelAt j) location)
                missing;
      lastRowId := lastRowId db + length missing |},
   if 0 <? length missing then TimelineUpdated (length missing) else NoNewLocations).
Proof.
  unfold addTodayLocations. rewrite addMissingLocations_result. cbv zeta.
  fold (missingLocations (default [] (timelineEntries !! entryId)) todayLocations).
  cbn [Nat.add]. unfold addedEntries.
  set (n := length (default [] (timelineEntries !! entryId))).
  replace (n + 0) with n by lia.
  destruct (0 <? length _); reflexivity.
Qed.

(** X17. Adding today's locations to a timeline of [n] entries: the locations
    added are those whose timestamp no entry of the timeline has, in
    their order, and the k-th of them (from 0) is given position
    [n + 2k], because the loop counts each added entry twice: from the
    second added entry on, the positions have gaps. *)
Theorem added_stops_get_every_other_position :
  forall (entryId : nat) (todayLocations : list LocationData)
         (timelineEntries : gmap nat (list TimelineEntry)) db,
    let existing := default [] (timelineEntries !! entryId) in
    let missing := missingLocations existing todayLocations in
    let '(timelineEntries', db', alert) :=
      addTodayLocations entryId todayLocations timelineEntries db in
    (missing = [] ->
     timelineEntries' = timelineEntries /\ db' = db /\ alert = NoNewLocations) /\
    (missing <> [] ->
     timelineEntries' !! entryId
     = Some (existing ++ addedEntries entryId (length existing) db missing) /\
     alert = TimelineUpdated (length missing)) /\
    order <$> addedEntries entryId (length existing) db missing
    = (fun k => length existing + 2 * k) <$> seq 0 (length missing) /\
    timestamp <$> addedEntries entryId (length existing) db missing
    = (fun location => Some (location_timestamp location)) <$> missing /\
    order <$> drop (length (timeline_entries db)) (timeline_entries db')
    = (fun k => length existing + 2 * k) <$> seq 0 (length missing).
Proof.
  intros entryId todayLocations timelineEntries db. cbv zeta.
  rewrite addTodayLocations_result. cbv zeta.
  set (existing := default [] (timelineEntries !! entryId)).
  set (missing := missingLocations existing todayLocations).
  split; [| split; [| split; [| split]]].
  - intros E. rewrite E. simpl. destruct db as [rows n]. simpl.
    rewrite app_nil_r, Nat.add_0_r. auto.
  - intros Hne. destruct missing as [| m rest] eqn:E; [contradiction |].
    cbn [length Nat.ltb Nat.leb]. rewrite lookup_insert_eq. auto.
  - unfold addedEntries. rewrite fmap_imap.
    rewrite (imap_ext _ (fun j _ => length existing + 2 * j)) by reflexivity.
    apply (imap_seq_0 missing (fun j => length existing + 2 * j)).
  - unfold addedEntries. rewrite fmap_imap.
    rewrite (imap_ext _ (const (fun location => Some (location_timestamp location))))
      by reflexivity.
    apply imap_const.
  - simpl. rewrite drop_app_length, fmap_imap.
    rewrite (imap_ext _ (fun j _ => length existing + 2 * j)) by reflexivity.
    apply (imap_seq_0 missing (fun j => length existing + 2 * j)).
Qed.

(** X18. Adding today's locations a second time adds nothing: every location
    of the day is then in the timeline. *)
Theorem adding_today_twice_adds_nothing :
  forall (entryId : nat) (todayLocations : list LocationData)
         (timelineEntries : gmap nat (list TimelineEntry)) db,
    let '(timelineEntries', db', _) :=
      addTodayLocations entryId todayLocations timelineEntries db in
    addTodayLocations entryId todayLocations timelineEntries' db'
    = (timelineEntries', db', NoNewLocations).
Proof.
  intros entryId todayLocations timelineEntries db.
  rewrite addTodayLocations_result. cbv zeta.
  set (existing := default [] (timelineEntries !! entryId)).
  set (missing := missingLocations existing todayLocations).
  set (db' := {| timeline_entries := _; lastRowId := _ |}).
  assert (Hnone : forall existing',
             (forall location, location ∈ todayLocations ->
                Some (location_timestamp location) ∈ (timestamp <$> existing')) ->
             missingLocations existing' todayLocations = []).
  { intros existing' H. unfold missingLocations.
    destruct (List.filter _ todayLocations) as [| x rest] eqn:E; [reflexivity |].
    assert (Hx : In x (List.filter
                         (fun location =>
                            negb (bool_decide (Some (location_timestamp location)
                                               ∈ (timestamp <$> existing'))))
                         todayLocations)) by (rewrite E; left; reflexivity).
    apply filter_In in Hx as [Hin Hx].
    apply negb_true_iff, bool_decide_eq_false in Hx.
    exfalso. apply Hx, H, list_elem_of_In, Hin. }
  assert (Hdone : forall (tl' : gmap nat (list TimelineEntry)) (d : Database),
             missingLocations (default [] (tl' !! entryId)) todayLocations = [] ->
             addTodayLocations entryId todayLocations tl' d = (tl', d, NoNewLocations)).
  { intros tl' d E. rewrite addTodayLocations_result. cbv zeta. rewrite E. simpl.
    destruct d as [rows n]. simpl. rewrite app_nil_r, Nat.add_0_r. reflexivity. }
  destruct (0 <? length missing) eqn:Hlen.
  - apply Hdone. rewrite lookup_insert_eq. simpl. apply Hnone.
    intros location Hin. rewrite fmap_app. apply elem_of_app.
    destruct (decide (Some (location_timestamp location) ∈ (timestamp <$> existing)))
      as [Hold | Hnew]; [left; exact Hold | right].
    unfold addedEntries. rewrite fmap_imap.
    rewrite (imap_ext _ (const (fun location => Some (location_timestamp location))))
      by reflexivity.
    rewrite imap_const. apply list_elem_of_fmap. exists location.
    split; [reflexivity |]. apply list_elem_of_In, filter_In.
    split; [apply list_elem_of_In, Hin |].
    apply negb_true_iff, bool_decide_eq_false. exact Hnew.
  - apply Hdone. apply Nat.ltb_ge in Hlen.
    destruct missing as [| m rest] eqn:E; [exact E | simpl in Hlen; lia].
Qed.

End AddTimeline.

(** ** The states of the location history modal *)

Section ModalStates.

Import Modal.
Local Open Scope nat_scope.
Local Open Scope list_scope.

Implicit Types entries : list EditableLocationEntry.

(** The states [entries] can take: the modal opens empty, loads
    ([loadLocationHistory]), deletes an entry, merges the day's stored
    locations, closes ([setEntries([])]), and replaces one entry in place
    keeping its position ([handleEditEntry], [handleSaveEntry],
    [handleSearchPlaces] and [handleSelectPlace], all of the form
    [updatedEntries[index] = { ...updatedEntries[index], ... }] for the
    index of a rendered entry). *)
Inductive modalState : list EditableLocationEntry -> Prop :=
| state_initial : modalState []
| state_load existingEntries locationHistory :
    modalState (loadLocationHistory existingEntries locationHistory)
| state_delete entries index :
    modalState entries -> modalState (handleDeleteEntry index entries)
| state_merge entries locationHistory :
    modalState entries ->
    modalState (handleAddFromLocationHistory locationHistory entries)
| state_update entries index (e e' : EditableLocationEntry) :
    modalState entries ->
    entries !! index = Some e -> order e' = order e ->
    modalState (<[index := e']> entries).

(** [handleSave]: the batch handed to the screen. *)
Definition toTimelineEntry (entry : EditableLocationEntry) : Feed.TimelineEntry :=
  {| Feed.id := None;
     Feed.dailyEntryId := 0;
     Feed.locationName := locationName entry;
     Feed.timestamp := timestamp entry;
     Feed.latitude := latitude entry;
     Feed.longitude := longitude entry;
     Feed.icon := icon entry;
     Feed.order := order entry |}.

(** X19. Whatever the user does in the modal, the positions of its entries
    are [0, 1, ..., n-1], and so are the positions of the batch it hands
    over on save. *)
Theorem modal_positions_are_always_dense :
  forall entries,
    modalState entries ->
    dense entries /\
    Feed.order <$> (toTimelineEntry <$> entries) = seq 0 (length entries).
Proof.
  intros entries H.
  assert (Hd : dense entries).
  { induction H as [| | entries index _ _ | entries history _ IH
                    | entries index e e' _ IH He Ho].
    - reflexivity.
    - apply loadLocationHistory_dense.
    - apply handleDeleteEntry_dense.
    - destruct (handleAdd_cases history entries) as [[_ ->] | [_ ->]];
        [exact IH | apply reindex_dense].
    - unfold dense in *. rewrite list_fmap_insert, length_insert, Ho.
      rewrite <- IH. apply list_insert_id. rewrite list_lookup_fmap, He. reflexivity. }
  split; [exact Hd |].
  rewrite <- list_fmap_compose. exact Hd.
Qed.

Lemma modal_positions_are_always_dense_witness :
  modalState (handleDeleteEntry 0 (handleAddFromLocationHistory sampleHistory [])) /\
  dense (handleDeleteEntry 0 (handleAddFromLocationHistory sampleHistory [])) /\
  Feed.order <$> (toTimelineEntry <$>
                    handleDeleteEntry 0 (handleAddFromLocationHistory sampleHistory []))
  = seq 0 (length (handleDeleteEntry 0 (handleAddFromLocationHistory sampleHistory []))).
Proof.
  assert (H : modalState (handleDeleteEntry 0
                            (handleAddFromLocationHistory sampleHistory [])))
    by (apply state_delete, state_merge, state_initial).
  split; [exact H |].
  exact (modal_positions_are_always_dense _ H).
Defined.

End ModalStates.

(** ** The modal and the store together *)

Section ModalAndStore.

Import Modal.
Local Open Scope nat_scope.
Local Open Scope list_scope.

Implicit Types entries : list EditableLocationEntry.


Lemma label_of_fromLocation (offset index : nat) (location : LocationData) :
  locationName (fromLocation offset index location)
  = JsString.or_else (default "" (location_name location)) "Unknown Location".
Proof. reflexivity. Qed.










End ModalAndStore.

(** ** The address of the device geocoder *)

(** The text of a field that counts: present and not empty. *)
Definition truthyText (field : option string) : option string :=
  match field with
  | Some s => if JsString.falsy s then None else Some s
  | None => None
  end.

Lemma pushIfTruthy_spec (field : option string) (parts : list string) :
  pushIfTruthy field parts = (parts ++ option_list (truthyText field))%list.
Proof.
  destruct field as [s |]; simpl; [| rewrite app_nil_r; reflexivity].
  destruct (JsString.falsy s); simpl; [rewrite app_nil_r |]; reflexivity.
Qed.

Lemma truthyText_nonempty (field : option string) (s : string) :
  truthyText field = Some s -> JsString.falsy s = false.
Proof.
  destruct field as [t |]; simpl; [| discriminate].
  destruct (JsString.falsy t) eqn:E; [discriminate |]. intros H. injection H as <-. exact E.
Qed.

Lemma filter_truthy_id (parts : list string) :
  Forall (fun s => JsString.falsy s = false) parts ->
  List.filter (fun p => negb (JsString.falsy p)) parts = parts.
Proof.
  induction 1 as [| s rest Hs _ IH]; simpl; [reflexivity |].
  rewrite Hs. simpl. rewrite IH. reflexivity.
Qed.

Lemma concat_comma_empty (parts : list string) :
  Forall (fun s => JsString.falsy s = false) parts ->
  String.concat ", " parts = "" -> parts = [].
Proof.
  intros H. destruct H as [| s rest Hs _]; [reflexivity |].
  simpl. destruct s; [discriminate |]. destruct rest; discriminate.
Qed.

(** X22. The address of the device geocoder lists the fields that are present
    and not empty, in the order name, street, district, city, region,
    separated by [", "]; it is empty, and the remote service is asked,
    exactly when all five are missing or empty. *)
Theorem device_address_lists_the_known_fields :
  forall location : GeocodedAddress,
    deviceAddress location
    = joinComma (omap truthyText
                   [name location; street location; district location;
                    city location; region location]) /\
    (deviceAddress location = "" <->
     truthyText (name location) = None /\ truthyText (street location) = None /\
     truthyText (district location) = None /\ truthyText (city location) = None /\
     truthyText (region location) = None) /\
    (deviceAddress location = "" ->
     forall (rest : list GeocodedAddress) (remote : RemoteGeocoding),
       locationNameSource (DeviceReturns (location :: rest)) remote
       = remoteSource remote).
Proof.
  intros location.
  assert (Hall : Forall (fun s => JsString.falsy s = false)
                   (omap truthyText
                      [name location; street location; district location;
                       city location; region location])).
  { apply Forall_forall. intros s Hs. apply list_elem_of_omap in Hs as (f & _ & Hf).
    exact (truthyText_nonempty f s Hf). }
  assert (E : deviceAddress location
              = joinComma (omap truthyText
                             [name location; street location; district location;
                              city location; region location])).
  { assert (Hparts :
              (option_list (truthyText (name location))
               ++ option_list (truthyText (street location))
               ++ option_list (truthyText (district location))
               ++ option_list (truthyText (city location))
               ++ option_list (truthyText (region location)))%list
              = omap truthyText
                  [name location; street location; district location;
                   city location; region location]).
    { simpl. destruct (truthyText (name location)), (truthyText (street location)),
        (truthyText (district location)), (truthyText (city location)),
        (truthyText (region location)); reflexivity. }
    unfold deviceAddress. rewrite !pushIfTruthy_spec. cbn [app].
    rewrite <- !app_assoc, Hparts, filter_truthy_id by exact Hall. reflexivity. }
  split; [exact E |]. split.
  - rewrite E. unfold joinComma. split.
    + intros H. apply (concat_comma_empty _ Hall) in H. simpl in H.
      destruct (truthyText (name location)), (truthyText (street location)),
        (truthyText (district location)), (truthyText (city location)),
        (truthyText (region location)); try discriminate. auto.
    + intros (H1 & H2 & H3 & H4 & H5). simpl. rewrite H1, H2, H3, H4, H5. reflexivity.
  - intros H rest remote. simpl. rewrite H. reflexivity.
Qed.

(** ** The daily reminder (NotificationService) *)

Module Reminder.

(** [interface NotificationSettings]. *)
Record NotificationSettings := mkSettings {
  enabled : bool;
  time : string;
  message : string
}.

(** The settings [getNotificationSettings] falls back to. *)
Definition defaultSettings : NotificationSettings :=
  {| enabled := false; time := "20:00"; message := "Time to capture your day! 📸" |}.

Section Notifications.

(** JavaScript numbers and [Number(text)]. *)
Variable number : Type.
Variable Number : string -> number.

(** A trigger: daily at an hour and a minute ([minute] is [undefined]
    when the time has no colon), or immediate ([trigger: null]). *)
Inductive Trigger :=
| Daily (hour : option number) (minute : option number)
| Immediate.

(** A scheduled notification as the platform lists it: [dataType] is
    [content.data?.type]. *)
Record ScheduledNotification := mkScheduled {
  identifier : string;
  title : string;
  body : string;
  dataType : option string;
  trigger : Trigger
}.

(** The service's flag, the platform's list of scheduled notifications
    and the key [notification_settings] of AsyncStorage. *)
Record State := mkState {
  isInitialized : bool;
  scheduled : list ScheduledNotification;
  notification_settings : option NotificationSettings
}.

(** [initialize()]: [granted] is whether the permission request answers
    ['granted']. *)
Definition initialize (granted : bool) (s : State) : State :=
  if isInitialized s then s
  else if granted then
    {| isInitialized := true; scheduled := scheduled s;
       notification_settings := notification_settings s |}
  else s.

Definition isDailyReminder (n : ScheduledNotification) : bool :=
  bool_decide (dataType n = Some "daily_reminder").

(** [Notifications.cancelScheduledNotificationAsync(identifier)] on the
    platform's list. *)
Definition cancelScheduledNotificationAsync (ident : string)
    (l : list ScheduledNotification) : list ScheduledNotification :=
  List.filter (fun n => negb (String.eqb (identifier n) ident)) l.

(** [cancelDailyReminder()]: the loop runs over the list as it was read
    at the start and cancels by identifier. *)
Definition cancelDailyReminder (s : State) : State :=
  {| isInitialized := isInitialized s;
     scheduled :=
       fold_left (fun l notification =>
                    if isDailyReminder notification
                    then cancelScheduledNotificationAsync (identifier notification) l
                    else l)
                 (scheduled s) (scheduled s);
     notification_settings := notification_settings s |}.

(** [scheduleDailyReminder(settings)]: [newIdentifier] is the identifier
    the platform gives the notification it schedules. The result is the
    value returned and the state left. *)
Definition scheduleDailyReminder (granted : bool) (newIdentifier : string)
    (settings : NotificationSettings) (s : State) : option string * State :=
  if negb (enabled settings) then (None, cancelDailyReminder s)
  else
    let s := initialize granted s in
    let s := cancelDailyReminder s in
    let parts := map Number (JsString.split ":"%char (time settings)) in
    let trigger := Daily (parts !! 0%nat) (parts !! 1%nat) in
    let notification :=
      {| identifier := newIdentifier;
         title := "Chronix Reminder";
         body := JsString.or_else (message settings) "Time to capture your day! 📸";
         dataType := Some "daily_reminder";
         trigger := trigger |} in
    (Some newIdentifier,
     {| isInitialized := isInitialized s;
        scheduled := (scheduled s ++ [notification])%list;
        notification_settings := Some settings |}).

(** [getNotificationSettings()]. *)
Definition getNotificationSettings (s : State) : NotificationSettings :=
  default defaultSettings (notification_settings s).

(** The platform gives every scheduled notification an identifier of its
    own. *)
Definition distinctIdentifiers (s : State) : Prop :=
  NoDup (identifier <$> scheduled s).

Lemma filter_idem {A} (f : A -> bool) (l : list A) :
  List.filter f (List.filter f l) = List.filter f l.
Proof.
  induction l as [| x l IH]; simpl; [reflexivity |].
  destruct (f x) eqn:E; simpl; [rewrite E, IH |]; auto.
Qed.

Lemma filter_none_of_negation {A} (f : A -> bool) (l : list A) :
  List.filter f (List.filter (fun x => negb (f x)) l) = [].
Proof.
  induction l as [| x l IH]; simpl; [reflexivity |].
  destruct (f x) eqn:E; simpl; [exact IH |]. rewrite E. exact IH.
Qed.

Lemma cancel_loop (snapshot l : list ScheduledNotification) :
  fold_left (fun l notification =>
               if isDailyReminder notification
               then cancelScheduledNotificationAsync (identifier notification) l
               else l) snapshot l
  = List.filter
      (fun n => negb (existsb (fun m => isDailyReminder m
                                        && String.eqb (identifier n) (identifier m))%bool
                              snapshot)) l.
Proof.
  revert l. induction snapshot as [| m rest IH]; intros l; simpl.
  - induction l as [| x l IHl]; simpl; congruence.
  - rewrite IH. destruct (isDailyReminder m); simpl.
    + unfold cancelScheduledNotificationAsync. rewrite filter_filter_list.
      apply filter_ext. intros n. rewrite negb_orb. reflexivity.
    + reflexivity.
Qed.

Lemma same_identifier_same_notification (l : list ScheduledNotification)
    (n m : ScheduledNotification) :
  NoDup (identifier <$> l) -> In n l -> In m l -> identifier n = identifier m -> n = m.
Proof.
  induction l as [| x l IH]; simpl; [tauto |].
  intros Hnd Hn Hm E. apply NoDup_cons in Hnd as [Hx Hnd].
  assert (Hin : forall y, In y l -> identifier y ∈ (identifier <$> l)).
  { intros y Hy. apply list_elem_of_fmap. exists y. split; [reflexivity |].
    apply list_elem_of_In. exact Hy. }
  destruct Hn as [<- | Hn], Hm as [<- | Hm].
  - reflexivity.
  - exfalso. apply Hx. rewrite E. apply Hin, Hm.
  - exfalso. apply Hx. rewrite <- E. apply Hin, Hn.
  - apply IH; assumption.
Qed.

(** With identifiers of their own, the loop cancels the daily reminders
    and nothing else. *)
Lemma cancelDailyReminder_scheduled (s : State) :
  distinctIdentifiers s ->
  scheduled (cancelDailyReminder s)
  = List.filter (fun n => negb (isDailyReminder n)) (scheduled s).
Proof.
  intros Hnd. cbn [scheduled cancelDailyReminder]. rewrite cancel_loop.
  apply filter_ext_in. intros n Hn. f_equal.
  destruct (isDailyReminder n) eqn:E.
  - apply existsb_exists. exists n. split; [exact Hn |].
    rewrite E, String.eqb_refl. reflexivity.
  - destruct (existsb _ (scheduled s)) eqn:Hex; [| reflexivity].
    apply existsb_exists in Hex as (m & Hm & Hboth).
    apply andb_true_iff in Hboth as [Hdaily Hsame].
    apply String.eqb_eq in Hsame.
    rewrite (same_identifier_same_notification _ n m Hnd Hn Hm Hsame) in E.
    congruence.
Qed.

Lemma initialize_scheduled (granted : bool) (s : State) :
  scheduled (initialize granted s) = scheduled s.
Proof.
  unfold initialize. destruct (isInitialized s); [reflexivity |].
  destruct granted; reflexivity.
Qed.

(** X23. Scheduling an enabled reminder leaves exactly one daily reminder, the
    new one, behind every other scheduled notification, which are kept in
    their order; the settings are stored and read back unchanged. The
    code schedules whether or not the permission was granted. *)
Theorem enabled_reminder_is_the_only_one :
  forall (granted : bool) (newIdentifier : string)
         (settings : NotificationSettings) (s : State),
    enabled settings = true ->
    distinctIdentifiers s ->
    let '(result, s') := scheduleDailyReminder granted newIdentifier settings s in
    result = Some newIdentifier /\
    (exists reminder : ScheduledNotification,
        scheduled s'
        = (List.filter (fun n => negb (isDailyReminder n)) (scheduled s) ++ [reminder])%list /\
        List.filter isDailyReminder (scheduled s') = [reminder] /\
        identifier reminder = newIdentifier /\
        body reminder
        = JsString.or_else (message settings) "Time to capture your day! 📸") /\
    getNotificationSettings s' = settings.
Proof.
  intros granted newIdentifier settings s He Hnd.
  unfold scheduleDailyReminder. rewrite He. cbn [negb]. cbv zeta.
  split; [reflexivity |]. split; [| reflexivity].
  exists {| identifier := newIdentifier;
            title := "Chronix Reminder";
            body := JsString.or_else (message settings) "Time to capture your day! 📸";
            dataType := Some "daily_reminder";
            trigger := Daily (map Number (JsString.split ":"%char (time settings)) !! 0%nat)
                             (map Number (JsString.split ":"%char (time settings)) !! 1%nat) |}.
  assert (Hrest : scheduled (cancelDailyReminder (initialize granted s))
                  = List.filter (fun n => negb (isDailyReminder n)) (scheduled s)).
  { rewrite cancelDailyReminder_scheduled, initialize_scheduled; [reflexivity |].
    unfold distinctIdentifiers. rewrite initialize_scheduled. exact Hnd. }
  cbn [scheduled]. rewrite Hrest.
  split; [reflexivity |]. split; [| split; reflexivity].
  rewrite filter_app_list, filter_none_of_negation. reflexivity.
Qed.

(** X24. Disabling the reminder cancels it and nothing else, and stores
    nothing: the settings read back afterwards are the ones stored
    before, which may still say the reminder is enabled. *)
Theorem disabling_cancels_but_is_not_stored :
  forall (granted : bool) (newIdentifier : string)
         (settings : NotificationSettings) (s : State),
    enabled settings = false ->
    distinctIdentifiers s ->
    let '(result, s') := scheduleDailyReminder granted newIdentifier settings s in
    result = None /\
    scheduled s' = List.filter (fun n => negb (isDailyReminder n)) (scheduled s) /\
    List.filter isDailyReminder (scheduled s') = [] /\
    notification_settings s' = notification_settings s /\
    getNotificationSettings s' = getNotificationSettings s.
Proof.
  intros granted newIdentifier settings s He Hnd.
  unfold scheduleDailyReminder. rewrite He. cbn [negb].
  split; [reflexivity |].
  rewrite (cancelDailyReminder_scheduled s Hnd).
  split; [reflexivity |]. split; [| split; reflexivity].
  apply filter_none_of_negation.
Qed.

End Notifications.

End Reminder.

(** A user who enabled the reminder and then disables it. *)
Definition reminderOn : Reminder.NotificationSettings :=
  Reminder.mkSettings true "20:30" "".

Definition reminderOff : Reminder.NotificationSettings :=
  Reminder.mkSettings false "20:30" "".

Lemma enabled_reminder_is_the_only_one_witness :
  Reminder.distinctIdentifiers string (Reminder.mkState string false [] None) /\
  let '(result, s') :=
    Reminder.scheduleDailyReminder string (fun text => text) true "id-1" reminderOn
      (Reminder.mkState string false [] None) in
  result = Some "id-1" /\
  (exists reminder : Reminder.ScheduledNotification string,
      Reminder.scheduled string s'
      = (List.filter (fun n => negb (Reminder.isDailyReminder string n)) [] ++ [reminder])%list /\
      List.filter (Reminder.isDailyReminder string) (Reminder.scheduled string s')
      = [reminder] /\
      Reminder.identifier string reminder = "id-1" /\
      Reminder.body string reminder
      = JsString.or_else (Reminder.message reminderOn) "Time to capture your day! 📸") /\
  Reminder.getNotificationSettings string s' = reminderOn.
Proof.
  assert (H : Reminder.distinctIdentifiers string (Reminder.mkState string false [] None))
    by apply NoDup_nil_2.
  split; [exact H |].
  exact (Reminder.enabled_reminder_is_the_only_one string (fun text => text) true "id-1"
           reminderOn (Reminder.mkState string false [] None) eq_refl H).
Defined.

(** The state after the reminder has been enabled on a fresh install. *)
Definition reminderScheduled : Reminder.State string :=
  snd (Reminder.scheduleDailyReminder string (fun text => text) true "id-1"
         reminderOn (Reminder.mkState string false [] None)).

Lemma disabling_cancels_but_is_not_stored_witness :
  Reminder.distinctIdentifiers string reminderScheduled /\
  let '(result, s') :=
    Reminder.scheduleDailyReminder string (fun text => text) true "id-2" reminderOff
      reminderScheduled in
  result = None /\
  Reminder.scheduled string s'
  = List.filter (fun n => negb (Reminder.isDailyReminder string n))
                (Reminder.scheduled string reminderScheduled) /\
  List.filter (Reminder.isDailyReminder string) (Reminder.scheduled string s') = [] /\
  Reminder.notification_settings string s'
  = Reminder.notification_settings string reminderScheduled /\
  Reminder.getNotificationSettings string s'
  = Reminder.getNotificationSettings string reminderScheduled.
Proof.
  assert (H : Reminder.distinctIdentifiers string reminderScheduled)
    by (unfold Reminder.distinctIdentifiers; simpl; apply NoDup_singleton).
  split; [exact H |].
  exact (Reminder.disabling_cancels_but_is_not_stored string (fun text => text) true "id-2"
           reminderOff reminderScheduled eq_refl H).
Defined.

(** After enabling and then disabling, the settings read back still say
    the reminder is enabled. *)
Example disabled_reminder_reads_back_enabled :
  Reminder.getNotificationSettings string
    (snd (Reminder.scheduleDailyReminder string (fun text => text) true "id-2" reminderOff
            reminderScheduled))
  = reminderOn.
Proof. reflexivity. Qed.

(** ** A device on the move *)






(** ** Creating the entry of the day (DatabaseService and FeedScreen) *)

Module Journal.

(** [interface DailyEntry]. *)
Record DailyEntry := mkDailyEntry {
  id : option nat;
  date : string;
  title : string;
  description : option string;
  createdAt : string;
  updatedAt : string
}.

(** The table [daily_entries] with its AUTOINCREMENT counter. *)
Record DailyEntries := mkDailyEntries {
  daily_entries : list DailyEntry;
  lastDailyId : nat
}.

(** [getDailyEntry(date)]. *)
Definition getDailyEntry (dateString : string) (t : DailyEntries) : option DailyEntry :=
  List.find (fun row => String.eqb (date row) dateString) (daily_entries t).

(** [createDailyEntry(entry)]: [None] when the insert is refused by the
    constraint [date TEXT UNIQUE] and the method throws. *)
Definition createDailyEntry (entry : DailyEntry) (t : DailyEntries)
  : option (nat * DailyEntries) :=
  if existsb (fun row => String.eqb (date row) (date entry)) (daily_entries t) then None
  else
    let rowId := S (lastDailyId t) in
    let row :=
      {| id := Some rowId; date := date entry; title := title entry;
         description := Feed.textOrNull (description entry);
         createdAt := createdAt entry; updatedAt := updatedAt entry |} in
    Some (rowId, {| daily_entries := (daily_entries t ++ [row])%list;
                    lastDailyId := rowId |}).

(** The two loops [for (let i = 0; ...)] of [handleAddEntry]: an entry is
    built from each item and its index, inserted, and collected with its
    id. *)
Fixpoint createEach {A : Type} (build : nat -> A -> Feed.TimelineEntry)
    (i : nat) (items : list A) (db : Feed.Database)
  : list Feed.TimelineEntry * Feed.Database :=
  match items with
  | [] => ([], db)
  | item :: rest =>
      let timelineEntry := build i item in
      let '(timelineId, db1) := Feed.createTimelineEntry timelineEntry db in
      let '(created, db2) := createEach build (S i) rest db1 in
      (withId timelineId timelineEntry :: created, db2)
  end.

(** The entry built from a provided timeline entry: its position is the
    index, whatever position it came with. *)
Definition fromProvided (entryId i : nat) (entry : Feed.TimelineEntry)
  : Feed.TimelineEntry :=
  {| Feed.id := None;
     Feed.dailyEntryId := entryId;
     Feed.locationName := Feed.locationName entry;
     Feed.timestamp := Feed.timestamp entry;
     Feed.latitude := Feed.latitude entry;
     Feed.longitude := Feed.longitude entry;
     Feed.icon := Feed.icon entry;
     Feed.order := i |}.

(** What [handleAddEntry] tells the user. *)
Inductive AddEntryAlert :=
| EntryExists
| EntryCreated (stops : nat)
| FailedToAddEntry
| NoAlert.

Record Tables := mkTables {
  entries : DailyEntries;
  timelines : Feed.Database
}.

Section AddEntry.

(** The label [getLocationName] resolves to at the k-th lookup. *)
Variable labelAt : nat -> string.

(** The entry built from a location of today's history. *)
Definition fromHistory (entryId i : nat) (location : LocationData)
  : Feed.TimelineEntry :=
  timelineEntryFor entryId i (labelAt i) location.

(** [handleAddEntry(title, description, timelineEntries)]: [dateString]
    is [formatDateForStorage(today)], [defaultTitle] is
    [formatDateForTitle(today)], [created] and [updated] are the two
    [new Date().toISOString()], [todayLocations] is what
    [getTodayLocationHistory()] resolves to. The result is the new
    entry's id with the timeline the screen shows for it, the tables and
    the alert. *)
Definition handleAddEntry
    (dateString defaultTitle created updated : string)
    (todayLocations : list LocationData)
    (givenTitle : string) (givenDescription : option string)
    (timelineEntries : option (list Feed.TimelineEntry))
    (t : Tables)
  : option (nat * list Feed.TimelineEntry) * Tables * AddEntryAlert :=
  match getDailyEntry dateString (entries t) with
  | Some _ => (None, t, EntryExists)
  | None =>
      let newEntry :=
        {| id := None; date := dateString;
           title := JsString.or_else givenTitle defaultTitle;
           description := givenDescription;
           createdAt := created; updatedAt := updated |} in
      match createDailyEntry newEntry (entries t) with
      | None => (None, t, FailedToAddEntry)
      | Some (entryId, entries') =>
          let '(finalTimelineEntries, db') :=
            match timelineEntries with
            | Some (first :: others) =>
                createEach (fromProvided entryId) 0 (first :: others) (timelines t)
            | _ =>
                createEach (fromHistory entryId) 0 todayLocations (timelines t)
            end in
          (Some (entryId, finalTimelineEntries),
           {| entries := entries'; timelines := db' |},
           if (0 <? length finalTimelineEntries)%nat
           then EntryCreated (length finalTimelineEntries) else NoAlert)
      end
  end.

Local Open Scope nat_scope.
Local Open Scope list_scope.

(** The row the table keeps for an entry inserted under [rowId]. *)
Definition storedAs (rowId : nat) (entry : Feed.TimelineEntry) : Feed.TimelineEntry :=
  {| Feed.id := Some rowId;
     Feed.dailyEntryId := Feed.dailyEntryId entry;
     Feed.locationName := Feed.locationName entry;
     Feed.timestamp := Feed.textOrNull (Feed.timestamp entry);
     Feed.latitude := Feed.numberOrNull (Feed.latitude entry);
     Feed.longitude := Feed.numberOrNull (Feed.longitude entry);
     Feed.icon := Feed.textOrNull (Feed.icon entry);
     Feed.order := Feed.order entry |}.

(** Dates are unique, and every row has an id between 1 and the counter
    that no other row has. *)
Definition entriesWellFormed (t : DailyEntries) : Prop :=
  NoDup (date <$> daily_entries t) /\
  Forall (fun row => exists i, id row = Some i /\ 1 <= i <= lastDailyId t)
         (daily_entries t) /\
  NoDup (id <$> daily_entries t).

(** Every timeline row belongs to a stored daily entry. *)
Definition timelinesBelong (t : Tables) : Prop :=
  Forall (fun row => Some (Feed.dailyEntryId row) ∈ (id <$> daily_entries (entries t)))
         (Feed.timeline_entries (timelines t)).

Lemma createEach_result {A : Type} (build : nat -> A -> Feed.TimelineEntry)
    (i : nat) (items : list A) (db : Feed.Database) :
  createEach build i items db =
  (imap (fun k item => withId (S (Feed.lastRowId db + k)) (build (i + k) item)) items,
   {| Feed.timeline_entries :=
        Feed.timeline_entries db
        ++ imap (fun k item => storedAs (S (Feed.lastRowId db + k)) (build (i + k) item))
                items;
      Feed.lastRowId := Feed.lastRowId db + length items |}).
Proof.
  revert i db. induction items as [| item rest IH]; intros i db; simpl.
  - rewrite app_nil_r, Nat.add_0_r. destruct db; reflexivity.
  - rewrite IH. simpl. rewrite !Nat.add_0_r. f_equal.
    + f_equal. apply imap_ext. intros k x _. simpl.
      replace (Feed.lastRowId db + S k) with (S (Feed.lastRowId db + k)) by lia.
      replace (i + S k) with (S (i + k)) by lia. reflexivity.
    + f_equal; [| lia].
      rewrite <- app_assoc. simpl. f_equal. f_equal.
      apply imap_ext. intros k x _. simpl.
      replace (Feed.lastRowId db + S k) with (S (Feed.lastRowId db + k)) by lia.
      replace (i + S k) with (S (i + k)) by lia. reflexivity.
Qed.

Lemma find_None_existsb {A : Type} (f : A -> bool) (l : list A) :
  List.find f l = None -> existsb f l = false.
Proof.
  induction l as [| x l IH]; simpl; [reflexivity |].
  destruct (f x); [discriminate | exact IH].
Qed.

Lemma find_None_snoc {A : Type} (f : A -> bool) (l : list A) (x : A) :
  List.find f l = None -> f x = true -> List.find f (l ++ [x]) = Some x.
Proof.
  intros Hl Hx. induction l as [| y l IH]; simpl in *.
  - rewrite Hx. reflexivity.
  - destruct (f y); [discriminate | exact (IH Hl)].
Qed.

Lemma find_None_not_elem (dateString : string) (rows : list DailyEntry) :
  List.find (fun row => String.eqb (date row) dateString) rows = None ->
  dateString ∉ (date <$> rows).
Proof.
  intros Hfind Hin. apply list_elem_of_fmap in Hin as (row & -> & Hrow).
  apply list_elem_of_In in Hrow.
  pose proof (find_none _ _ Hfind row Hrow) as H. simpl in H.
  rewrite String.eqb_refl in H. discriminate.
Qed.

Lemma imap_index_seq {A : Type} (l : list A) (start : nat) :
  imap (fun k _ => start + k) l = seq start (length l).
Proof.
  revert start. induction l as [| x l IH]; intros start; simpl.
  - reflexivity.
  - rewrite Nat.add_0_r. f_equal. rewrite <- IH.
    apply imap_ext. intros k y _. simpl. lia.
Qed.

Lemma imap_order_seq {A : Type} (f : nat -> A -> Feed.TimelineEntry) (items : list A) :
  (forall k x, Feed.order (f k x) = k) ->
  Feed.order <$> imap f items = seq 0 (length items).
Proof.
  intros Hf. rewrite fmap_imap, <- imap_index_seq.
  apply imap_ext. intros k x _. simpl. apply Hf.
Qed.

Lemma imap_Forall {A B : Type} (P : B -> Prop) (f : nat -> A -> B) (items : list A) :
  (forall k x, P (f k x)) -> Forall P (imap f items).
Proof.
  revert f. induction items as [| x l IH]; intros f Hf; simpl; constructor.
  - apply Hf.
  - apply IH. intros k y. apply Hf.
Qed.

Lemma wellFormed_createTimelineEntry (entry : Feed.TimelineEntry) (db : Feed.Database) :
  wellFormed db -> wellFormed (snd (Feed.createTimelineEntry entry db)).
Proof.
  intros [Hids Hnd]. split; simpl.
  - apply Forall_app. split.
    + eapply Forall_impl; [exact Hids |]. intros row (j & Hj & Hle).
      simpl. exists j. split; [exact Hj | lia].
    + constructor; [| constructor]. simpl. eexists. split; [reflexivity | lia].
  - rewrite fmap_app. apply NoDup_app. split; [exact Hnd |]. split.
    + intros x Hx Hin. simpl in Hin. apply list_elem_of_singleton in Hin. subst x.
      apply list_elem_of_fmap in Hx as (row & E & Hrow).
      rewrite Forall_forall in Hids.
      destruct (Hids row Hrow) as (j & Hj & Hle). rewrite Hj in E.
      injection E as E. lia.
    + simpl. apply NoDup_singleton.
Qed.

Lemma createEach_wellFormed {A : Type} (build : nat -> A -> Feed.TimelineEntry)
    (i : nat) (items : list A) (db : Feed.Database) :
  wellFormed db -> wellFormed (snd (createEach build i items db)).
Proof.
  revert i db. induction items as [| item rest IH]; intros i db Hdb.
  - exact Hdb.
  - cbn [createEach].
    pose proof (wellFormed_createTimelineEntry (build i item) db Hdb) as Hstep.
    destruct (Feed.createTimelineEntry (build i item) db) as [timelineId db1].
    simpl in Hstep. specialize (IH (S i) db1 Hstep).
    destruct (createEach build (S i) rest db1) as [created db2]. exact IH.
Qed.

(** What one of the two loops leaves behind, when the entries it builds
    take the index as position and [entryId] as owner. *)
Lemma createEach_facts {A : Type} (build : nat -> A -> Feed.TimelineEntry)
    (entryId : nat) (items : list A) (db : Feed.Database) :
  (forall k x, Feed.order (build k x) = k) ->
  (forall k x, Feed.dailyEntryId (build k x) = entryId) ->
  let created := fst (createEach build 0 items db) in
  let db' := snd (createEach build 0 items db) in
  length created = length items /\
  Feed.order <$> created = seq 0 (length created) /\
  Feed.id <$> created = Some <$> seq (S (Feed.lastRowId db)) (length created) /\
  Forall (fun entry => Feed.dailyEntryId entry = entryId) created /\
  exists rows,
    Feed.timeline_entries db' = Feed.timeline_entries db ++ rows /\
    Feed.order <$> rows = seq 0 (length created) /\
    Feed.id <$> rows = Feed.id <$> created /\
    Forall (fun row => Feed.dailyEntryId row = entryId) rows.
Proof.
  intros Horder Howner. rewrite createEach_result. simpl.
  rewrite !length_imap.
  assert (Hids : forall (f : nat -> A -> Feed.TimelineEntry),
             (forall k x, Feed.id (f k x) = Some (S (Feed.lastRowId db + k))) ->
             Feed.id <$> imap f items
             = Some <$> seq (S (Feed.lastRowId db)) (length items)).
  { intros f Hf. rewrite fmap_imap, <- imap_index_seq, fmap_imap.
    apply imap_ext. intros k x _. simpl. rewrite Hf. reflexivity. }
  split; [reflexivity |]. split.
  { apply imap_order_seq. intros k x. simpl. apply Horder. }
  split.
  { apply Hids. reflexivity. }
  split.
  { apply imap_Forall. intros k x. simpl. apply Howner. }
  eexists. split; [reflexivity |]. split.
  { apply imap_order_seq. intros k x. simpl. apply Horder. }
  split.
  { rewrite !Hids by reflexivity. reflexivity. }
  apply imap_Forall. intros k x. simpl. apply Howner.
Qed.

Implicit Types t : Tables.

(** The timeline part of [handleAddEntry]. *)
Definition timelineFor (entryId : nat) (todayLocations : list LocationData)
    (timelineEntries : option (list Feed.TimelineEntry)) (db : Feed.Database)
  : list Feed.TimelineEntry * Feed.Database :=
  match timelineEntries with
  | Some (first :: others) =>
      createEach (fromProvided entryId) 0 (first :: others) db
  | _ => createEach (fromHistory entryId) 0 todayLocations db
  end.

(** The row [createDailyEntry] stores for the entry of the handler. *)
Definition storedEntry (rowId : nat) (dateString defaultTitle created updated : string)
    (givenTitle : string) (givenDescription : option string) : DailyEntry :=
  {| id := Some rowId; date := dateString;
     title := JsString.or_else givenTitle defaultTitle;
     description := Feed.textOrNull givenDescription;
     createdAt := created; updatedAt := updated |}.

Lemma handleAddEntry_new
    (dateString defaultTitle created updated : string)
    (todayLocations : list LocationData)
    (givenTitle : string) (givenDescription : option string)
    (timelineEntries : option (list Feed.TimelineEntry)) t :
  getDailyEntry dateString (entries t) = None ->
  let entryId := S (lastDailyId (entries t)) in
  let result := timelineFor entryId todayLocations timelineEntries (timelines t) in
  handleAddEntry dateString defaultTitle created updated todayLocations
                 givenTitle givenDescription timelineEntries t
  = (Some (entryId, fst result),
     {| entries :=
          {| daily_entries :=
               daily_entries (entries t)
               ++ [storedEntry entryId dateString defaultTitle created updated
                               givenTitle givenDescription];
             lastDailyId := entryId |};
        timelines := snd result |},
     if 0 <? length (fst result) then EntryCreated (length (fst result)) else NoAlert).
Proof.
  intros Hnone. unfold handleAddEntry, createDailyEntry. rewrite Hnone.
  cbv zeta. cbn [date].
  unfold getDailyEntry in Hnone. rewrite (find_None_existsb _ _ Hnone).
  unfold timelineFor.
  destruct timelineEntries as [[| first others] |];
    match goal with
    | |- context [createEach ?b ?i ?l ?d] => destruct (createEach b i l d)
    end; reflexivity.
Qed.

(** X26. A second call of [handleAddEntry] for the same day, whatever its
    title, description and timeline, creates nothing: the tables are as
    the first call left them and the user is told that the entry exists.
    So the feed never holds two entries of one day through this handler. *)
Theorem second_entry_of_the_day_is_refused :
  forall (dateString : string)
         (defaultTitle created updated : string) (todayLocations : list LocationData)
         (givenTitle : string) (givenDescription : option string)
         (timelineEntries : option (list Feed.TimelineEntry))
         (defaultTitle' created' updated' : string) (todayLocations' : list LocationData)
         (givenTitle' : string) (givenDescription' : option string)
         (timelineEntries' : option (list Feed.TimelineEntry)) t,
    handleAddEntry dateString defaultTitle' created' updated' todayLocations'
      givenTitle' givenDescription' timelineEntries'
      (snd (fst (handleAddEntry dateString defaultTitle created updated todayLocations
                   givenTitle givenDescription timelineEntries t)))
    = (None,
       snd (fst (handleAddEntry dateString defaultTitle created updated todayLocations
                   givenTitle givenDescription timelineEntries t)),
       EntryExists).
Proof.
  intros.
  destruct (getDailyEntry dateString (entries t)) as [existing |] eqn:Hfound.
  - assert (Hsame : handleAddEntry dateString defaultTitle created updated todayLocations
                      givenTitle givenDescription timelineEntries t
                    = (None, t, EntryExists)).
    { unfold handleAddEntry. rewrite Hfound. reflexivity. }
    rewrite Hsame. simpl. unfold handleAddEntry. rewrite Hfound. reflexivity.
  - rewrite (handleAddEntry_new _ defaultTitle created updated todayLocations
               givenTitle givenDescription timelineEntries _ Hfound). simpl.
    unfold handleAddEntry at 1. unfold getDailyEntry at 1. simpl.
    rewrite (find_None_snoc _ _ _ Hfound) by (simpl; apply String.eqb_refl).
    reflexivity.
Qed.

(** X27. When the day has no entry yet, [handleAddEntry] stores one under a
    new id and gives it a timeline whose positions are 0, 1, 2, ... in the
    order of the provided entries (whatever positions they carried) or,
    without provided entries, of today's location history; every created
    timeline row is owned by the new entry, has a fresh consecutive id and
    is appended to the table, and the alert reports their number. *)
Theorem new_entry_timeline_is_numbered_from_zero :
  forall (dateString defaultTitle created updated : string)
         (todayLocations : list LocationData)
         (givenTitle : string) (givenDescription : option string)
         (timelineEntries : option (list Feed.TimelineEntry)) t,
    getDailyEntry dateString (entries t) = None ->
    let result :=
      handleAddEntry dateString defaultTitle created updated todayLocations
                     givenTitle givenDescription timelineEntries t in
    let entryId := S (lastDailyId (entries t)) in
    exists shown,
      fst (fst result) = Some (entryId, shown) /\
      snd result = (if 0 <? length shown then EntryCreated (length shown) else NoAlert) /\
      length shown = match timelineEntries with
                     | Some (first :: others) => length (first :: others)
                     | _ => length todayLocations
                     end /\
      Feed.order <$> shown = seq 0 (length shown) /\
      Feed.id <$> shown = Some <$> seq (S (Feed.lastRowId (timelines t))) (length shown) /\
      Forall (fun entry => Feed.dailyEntryId entry = entryId) shown /\
      getDailyEntry dateString (entries (snd (fst result)))
      = Some (storedEntry entryId dateString defaultTitle created updated
                          givenTitle givenDescription) /\
      exists rows,
        Feed.timeline_entries (timelines (snd (fst result)))
        = Feed.timeline_entries (timelines t) ++ rows /\
        Feed.order <$> rows = seq 0 (length shown) /\
        Feed.id <$> rows = Feed.id <$> shown /\
        Forall (fun row => Feed.dailyEntryId row = entryId) rows.
Proof.
  intros dateString defaultTitle created updated todayLocations
         givenTitle givenDescription timelineEntries t Hnone result entryId.
  subst result.
  rewrite (handleAddEntry_new _ defaultTitle created updated todayLocations
             givenTitle givenDescription timelineEntries _ Hnone).
  fold entryId. cbn [fst snd entries timelines].
  assert (Hfacts :
    let shown := fst (timelineFor entryId todayLocations timelineEntries (timelines t)) in
    let db' := snd (timelineFor entryId todayLocations timelineEntries (timelines t)) in
    length shown = match timelineEntries with
                   | Some (first :: others) => length (first :: others)
                   | _ => length todayLocations
                   end /\
    Feed.order <$> shown = seq 0 (length shown) /\
    Feed.id <$> shown = Some <$> seq (S (Feed.lastRowId (timelines t))) (length shown) /\
    Forall (fun entry => Feed.dailyEntryId entry = entryId) shown /\
    exists rows,
      Feed.timeline_entries db' = Feed.timeline_entries (timelines t) ++ rows /\
      Feed.order <$> rows = seq 0 (length shown) /\
      Feed.id <$> rows = Feed.id <$> shown /\
      Forall (fun row => Feed.dailyEntryId row = entryId) rows).
  { unfold timelineFor.
    destruct timelineEntries as [[| first others] |];
      apply createEach_facts; intros; reflexivity. }
  destruct Hfacts as (Hlen & Horder & Hids & Howner & Hrows).
  eexists. split; [reflexivity |]. split; [reflexivity |].
  split; [exact Hlen |]. split; [exact Horder |]. split; [exact Hids |].
  split; [exact Howner |]. split; [| exact Hrows].
  unfold getDailyEntry. simpl.
  apply find_None_snoc; [exact Hnone | simpl; apply String.eqb_refl].
Qed.

(** X28. [handleAddEntry] keeps the two tables sound: the dates of the
    daily entries stay unique, ids of both tables stay distinct and within
    their counters, and every timeline row still belongs to a stored daily
    entry. *)
Theorem adding_an_entry_keeps_the_tables_sound :
  forall (dateString defaultTitle created updated : string)
         (todayLocations : list LocationData)
         (givenTitle : string) (givenDescription : option string)
         (timelineEntries : option (list Feed.TimelineEntry)) t,
    entriesWellFormed (entries t) ->
    wellFormed (timelines t) ->
    timelinesBelong t ->
    let t' := snd (fst (handleAddEntry dateString defaultTitle created updated
                          todayLocations givenTitle givenDescription
                          timelineEntries t)) in
    entriesWellFormed (entries t') /\ wellFormed (timelines t') /\ timelinesBelong t'.
Proof.
  intros dateString defaultTitle created updated todayLocations
         givenTitle givenDescription timelineEntries t
         (Hdates & Hrange & Hids) Hdb Hbelong t'.
  subst t'.
  destruct (getDailyEntry dateString (entries t)) as [existing |] eqn:Hfound.
  { unfold handleAddEntry. rewrite Hfound. simpl.
    exact (conj (conj Hdates (conj Hrange Hids)) (conj Hdb Hbelong)). }
  rewrite (handleAddEntry_new _ defaultTitle created updated todayLocations
             givenTitle givenDescription timelineEntries _ Hfound).
  cbn [fst snd entries timelines].
  set (entryId := S (lastDailyId (entries t))).
  assert (Hfresh : Some entryId ∉ (id <$> daily_entries (entries t))).
  { intros Hin. apply list_elem_of_fmap in Hin as (row & E & Hrow).
    rewrite Forall_forall in Hrange.
    destruct (Hrange row Hrow) as (j & Hj & Hle). rewrite Hj in E.
    injection E as E. unfold entryId in E. lia. }
  split; [| split].
  - split; [| split]; simpl.
    + rewrite fmap_app. apply NoDup_app. split; [exact Hdates |]. split.
      * intros x Hx Hin. simpl in Hin. apply list_elem_of_singleton in Hin. subst x.
        exact (find_None_not_elem _ _ Hfound Hx).
      * simpl. apply NoDup_singleton.
    + apply Forall_app. split.
      * eapply Forall_impl; [exact Hrange |]. intros row (j & Hj & Hle).
        exists j. split; [exact Hj | unfold entryId; lia].
      * constructor; [| constructor]. simpl. exists entryId.
        split; [reflexivity | unfold entryId; lia].
    + rewrite fmap_app. apply NoDup_app. split; [exact Hids |]. split.
      * intros x Hx Hin. simpl in Hin. apply list_elem_of_singleton in Hin. subst x.
        exact (Hfresh Hx).
      * simpl. apply NoDup_singleton.
  - unfold timelineFor.
    destruct timelineEntries as [[| first others] |];
      apply createEach_wellFormed; exact Hdb.
  - unfold timelinesBelong. cbn [entries timelines daily_entries].
    assert (Hrows : exists rows,
      Feed.timeline_entries
        (snd (timelineFor entryId todayLocations timelineEntries (timelines t)))
      = Feed.timeline_entries (timelines t) ++ rows /\
      Forall (fun row => Feed.dailyEntryId row = entryId) rows).
    { unfold timelineFor.
      destruct timelineEntries as [[| first others] |];
        match goal with
        | |- context [createEach ?b 0 ?l ?d] =>
            destruct (createEach_facts b entryId l d) as (_ & _ & _ & _ & rows & E & _ & _ & H);
              [intros; reflexivity | intros; reflexivity |];
              exists rows; split; [exact E | exact H]
        end. }
    destruct Hrows as (rows & -> & Hrows).
    apply Forall_app. split.
    + eapply Forall_impl; [exact Hbelong |]. intros row Hrow. simpl in Hrow.
      rewrite fmap_app. apply elem_of_app. left. exact Hrow.
    + eapply Forall_impl; [exact Hrows |]. intros row Hrow. simpl in Hrow.
      rewrite Hrow, fmap_app. apply elem_of_app. right. simpl.
      apply list_elem_of_singleton. reflexivity.
Qed.

End AddEntry.

(** A first launch: both tables empty. *)
Definition emptyTables : Tables :=
  {| entries := {| daily_entries := []; lastDailyId := 0 |};
     timelines := {| Feed.timeline_entries := []; Feed.lastRowId := 0 |} |}.

Lemma new_entry_timeline_is_numbered_from_zero_witness :
  getDailyEntry "2023-11-14" (entries emptyTables) = None /\
  exists shown,
    fst (fst (handleAddEntry (fun _ => "Home") "2023-11-14" "November 14, 2023"
                "2023-11-14T20:00:00.000Z" "2023-11-14T20:00:00.000Z"
                sampleHistory "" None (Some [newOffice; storedHome]) emptyTables))
    = Some (1%nat, shown) /\
    Feed.order <$> shown = seq 0 (length shown).
Proof.
  split; [reflexivity |].
  destruct (new_entry_timeline_is_numbered_from_zero
              (fun _ => "Home") "2023-11-14" "November 14, 2023"
              "2023-11-14T20:00:00.000Z" "2023-11-14T20:00:00.000Z"
              sampleHistory "" None (Some [newOffice; storedHome]) emptyTables
              eq_refl)
    as (shown & Hshown & _ & _ & Horder & _).
  exists shown. split; [exact Hshown | exact Horder].
Defined.

Lemma adding_an_entry_keeps_the_tables_sound_witness :
  entriesWellFormed (entries emptyTables) /\
  wellFormed (timelines emptyTables) /\
  timelinesBelong emptyTables /\
  entriesWellFormed
    (entries (snd (fst (handleAddEntry (fun _ => "Home") "2023-11-14"
                          "November 14, 2023"
                          "2023-11-14T20:00:00.000Z" "2023-11-14T20:00:00.000Z"
                          sampleHistory "" None None emptyTables)))).
Proof.
  assert (He : entriesWellFormed (entries emptyTables)).
  { split; [| split]; simpl; constructor. }
  assert (Hd : wellFormed (timelines emptyTables)) by exact wellFormed_empty.
  assert (Hb : timelinesBelong emptyTables) by (unfold timelinesBelong; simpl; constructor).
  split; [exact He |]. split; [exact Hd |]. split; [exact Hb |].
  exact (proj1 (adding_an_entry_keeps_the_tables_sound
                  (fun _ => "Home") "2023-11-14" "November 14, 2023"
                  "2023-11-14T20:00:00.000Z" "2023-11-14T20:00:00.000Z"
                  sampleHistory "" None None emptyTables He Hd Hb)).
Defined.

End Journal.
